(** * Kokoro text-to-speech workers: the persistent server and the one-shot helper

    A shallow embedding of
      - [src/short-creator/libraries/kokoro_python_server.py]  (module [Server])
      - [src/short-creator/libraries/kokoro_python_helper.py]  (module [Helper])

    Python values are an inductive type, the two scripts are written in a small
    state-and-exception monad over the state of the process (the text written
    to file descriptors 1 and 2, the targets of [sys.stdout] and [sys.stderr],
    the module global [pipelines]) and the outside world. The third-party
    code the scripts call (json.loads, kokoro's KPipeline, soundfile.write) is
    an interface, [External]; every theorem holds for all its instances and
    the examples run the scripts on small fake ones. *)

From Stdlib Require Import ZArith List String Ascii Bool Lia.
From Stdlib Require Import PrimFloat FloatOps SpecFloat.
Import ListNotations.
Open Scope string_scope.
Open Scope Z_scope.

(** ** Python values *)

Module Py.

(** What [json.loads] returns and what [json.dumps] takes: None, bool, int,
    float, str, list and dict with string keys. A dict is kept as the list of
    its items, looked up from the front. *)
#[local] Set Warnings "-register-all".
Inductive value : Type :=
| VNone
| VBool (b : bool)
| VInt (z : Z)
| VFloat (f : float)
| VStr (s : string)
| VList (l : list value)
| VDict (d : list (string * value)).

Definition dict : Type := list (string * value).

(** [type(v).__name__] *)
Definition type_name (v : value) : string :=
  match v with
  | VNone => "NoneType"
  | VBool _ => "bool"
  | VInt _ => "int"
  | VFloat _ => "float"
  | VStr _ => "str"
  | VList _ => "list"
  | VDict _ => "dict"
  end.

(** [bool(v)]: None, False, zero, and the empty string, list and dict are
    false; -0.0 is zero and NaN is not. *)
Definition truthy (v : value) : bool :=
  match v with
  | VNone => false
  | VBool b => b
  | VInt z => negb (z =? 0)
  | VFloat f => negb (PrimFloat.eqb f 0%float)
  | VStr s => negb (s =? "")%string
  | VList l => match l with [] => false | _ => true end
  | VDict d => match d with [] => false | _ => true end
  end.

(** [all(vs)] *)
Definition all (vs : list value) : bool := forallb truthy vs.

(** [d.get(k)]: the value under [k], None when there is none. *)
Fixpoint dict_get (d : dict) (k : string) : value :=
  match d with
  | [] => VNone
  | (k', v) :: d' => if (k' =? k)%string then v else dict_get d' k
  end.

(** [k in d] for a dict with string keys *)
Fixpoint dict_has (d : dict) (k : string) : bool :=
  match d with
  | [] => false
  | (k', _) :: d' => (k' =? k)%string || dict_has d' k
  end.

(** [v == s] for a string literal [s] *)
Definition eq_str (v : value) (s : string) : bool :=
  match v with
  | VStr t => (t =? s)%string
  | _ => false
  end.

(** The integer a float is equal to, when it is one: m * 2^e is an integer
    when e >= 0 or 2^(-e) divides m. Infinities and NaN are equal to no
    integer. *)
Definition float_integer (f : float) : option Z :=
  match Prim2SF f with
  | S754_zero _ => Some 0
  | S754_finite s m e =>
      let sign := if s then -1 else 1 in
      if 0 <=? e then Some (sign * (Z.pos m * 2 ^ e))
      else if Z.pos m mod 2 ^ (- e) =? 0 then Some (sign * (Z.pos m / 2 ^ (- e)))
      else None
  | _ => None
  end.

(** Hashable values: everything but list and dict. *)
Definition hashable (v : value) : bool :=
  match v with
  | VList _ | VDict _ => false
  | _ => true
  end.

(** A key [a] of a dict found with [b]: the same object, or [a == b]. bool, int
    and float compare as numbers (True == 1 == 1.0), exactly. NaN is equal
    to nothing, but the NaN of a decoded document is always the one object
    json.decoder.NaN, which a dict finds. *)
Definition key_eq (a b : value) : bool :=
  match a, b with
  | VNone, VNone => true
  | VStr s, VStr t => (s =? t)%string
  | VBool x, VBool y => Bool.eqb x y
  | VBool x, VInt z | VInt z, VBool x => (if x then 1 else 0) =? z
  | VInt x, VInt y => x =? y
  | VFloat f, VFloat g => PrimFloat.eqb f g || (is_nan f && is_nan g)
  | VBool x, VFloat f | VFloat f, VBool x =>
      match float_integer f with Some z => (if x then 1 else 0) =? z | None => false end
  | VInt x, VFloat f | VFloat f, VInt x =>
      match float_integer f with Some z => x =? z | None => false end
  | _, _ => false
  end.

(** [int / float]: the int is rounded to the nearest double (ties to even),
    then divided. (An int beyond the range of doubles raises OverflowError in
    Python; the lengths divided here are far below.) *)
Definition float_of_int (z : Z) : float :=
  SF2Prim (binary_normalize 53 1024 z 0 false).

Definition truediv (z : Z) (d : float) : float :=
  PrimFloat.div (float_of_int z) d.

#[global] Arguments truediv : simpl never.

(** *** Strings *)

Definition nl : string := String (ascii_of_nat 10) EmptyString.

(** [c.isspace()] on the code points below 256: TAB, LF, VT, FF, CR, the four
    separators FS GS RS US, the space, NEL and the no-break space. *)
Definition isspace (c : ascii) : bool :=
  let n := nat_of_ascii c in
  ((9 <=? n) && (n <=? 13) || (28 <=? n) && (n <=? 32) || (n =? 133) || (n =? 160))%nat.

Fixpoint lstrip (s : string) : string :=
  match s with
  | EmptyString => EmptyString
  | String c s' => if isspace c then lstrip s' else s
  end.

Fixpoint rstrip (s : string) : string :=
  match s with
  | EmptyString => EmptyString
  | String c s' =>
      match rstrip s' with
      | EmptyString => if isspace c then EmptyString else String c EmptyString
      | r => String c r
      end
  end.

(** [s.strip()] *)
Definition strip (s : string) : string := rstrip (lstrip s).

(** An exception: its class and [str(e)]. *)
Inductive exn : Type := Exn (cls msg : string).

Definition str (e : exn) : string := let 'Exn _ msg := e in msg.

End Py.
Export Py.

(** ** The outside world *)

(** The two streams a process writes to. *)
Inductive fd : Type := Stdout | Stderr.

(** What the scripts call and do not define. [env] is the state of everything
    outside the process (the model framework, the disk); every capability
    takes it and returns the next one.
      - [json_loads s]: the decoded document, [None] for JSONDecodeError (a
        document too deeply nested to decode is left out);
      - [KPipeline lang_code]: the constructor of kokoro's pipeline. It may
        write text to [sys.stdout] and [sys.stderr] (a list of writes, in
        order) and returns a handle or raises;
      - [call_pipeline h text voice speed split_pattern]: calling the handle
        and running the generator it returns to its end: the writes made on
        the way, the audio of the tuples yielded, in order, and the
        exception that ended the iteration, if one did (a tuple that does not
        unpack into three is such an exception);
      - [sf_write file data samplerate]: soundfile.write, silent; [Some e]
        when it raises.
    The exceptions raised are instances of [Exception]. An audio chunk is a
    one-dimensional array of samples, so that np.concatenate is [concat]. *)
Class External : Type := {
  env : Type;
  handle : Type;
  sample : Type;
  json_loads : string -> option value;
  KPipeline : value -> env -> env * list (fd * string) * (exn + handle);
  call_pipeline : handle -> value -> value -> Z -> string -> env ->
                  env * list (fd * string) * list (list sample) * option exn;
  sf_write : value -> list sample -> Z -> env -> env * option exn
}.

(** ** The state of a process and the monad of the scripts *)

Module Runtime.

(** A stream object: one of the two streams of the process, or an io.StringIO,
    named by its place in the heap of buffers. *)
Inductive stream : Type :=
| Fd (n : fd)
| StringIO (id : nat).

Section Process.
Context {X : External}.

(** What reaches a stream: the line [json.dumps(d)] of a [print], raw text, or
    the interpreter's report of an exception nobody caught. *)
Inductive item : Type :=
| Json (d : dict)
| Text (s : string)
| Traceback (e : exn).

(** The calls made to the model and to the encoder, with their results. *)
Inductive event : Type :=
| Constructed (lang_code : value) (r : exn + handle)
| Synthesised (h : handle) (text voice : value)
| Written (file : value) (data : list sample) (samplerate : Z) (r : option exn).

(** [fd1] and [fd2] are what the process has written to its standard output
    and standard error, [buffers] the contents of the StringIO objects made so
    far, [sys_stdout] and [sys_stderr] the objects the two names of module
    sys are bound to. [pipelines] is the global of the server module. [log]
    is a ghost record of the calls made. *)
Record world : Type := mkWorld {
  outside : env;
  fd1 : list item;
  fd2 : list item;
  buffers : list (list item);
  sys_stdout : stream;
  sys_stderr : stream;
  pipelines : list (value * handle);
  log : list event
}.

Definition initial (e : env) : world :=
  mkWorld e [] [] [] (Fd Stdout) (Fd Stderr) [] [].

Definition set_outside (e : env) (w : world) : world :=
  mkWorld e (fd1 w) (fd2 w) (buffers w) (sys_stdout w) (sys_stderr w) (pipelines w) (log w).

Definition set_sys_stdout (s : stream) (w : world) : world :=
  mkWorld (outside w) (fd1 w) (fd2 w) (buffers w) s (sys_stderr w) (pipelines w) (log w).

Definition set_sys_stderr (s : stream) (w : world) : world :=
  mkWorld (outside w) (fd1 w) (fd2 w) (buffers w) (sys_stdout w) s (pipelines w) (log w).

Definition set_pipelines (p : list (value * handle)) (w : world) : world :=
  mkWorld (outside w) (fd1 w) (fd2 w) (buffers w) (sys_stdout w) (sys_stderr w) p (log w).

Definition record (ev : event) (w : world) : world :=
  mkWorld (outside w) (fd1 w) (fd2 w) (buffers w) (sys_stdout w) (sys_stderr w)
          (pipelines w) (log w ++ [ev]).

(** Writing the empty string leaves a stream as it is. *)
Definition visible (i : item) : bool :=
  match i with
  | Text s => negb (s =? "")%string
  | _ => true
  end.

Definition put (i : item) (l : list item) : list item :=
  if visible i then l ++ [i] else l.

Fixpoint put_at (id : nat) (i : item) (bs : list (list item)) : list (list item) :=
  match bs, id with
  | [], _ => []
  | b :: bs', O => put i b :: bs'
  | b :: bs', S id' => b :: put_at id' i bs'
  end.

(** [s.write(...)] *)
Definition write_to (s : stream) (i : item) (w : world) : world :=
  match s with
  | Fd Stdout =>
      mkWorld (outside w) (put i (fd1 w)) (fd2 w) (buffers w) (sys_stdout w) (sys_stderr w)
              (pipelines w) (log w)
  | Fd Stderr =>
      mkWorld (outside w) (fd1 w) (put i (fd2 w)) (buffers w) (sys_stdout w) (sys_stderr w)
              (pipelines w) (log w)
  | StringIO id =>
      mkWorld (outside w) (fd1 w) (fd2 w) (put_at id i (buffers w)) (sys_stdout w)
              (sys_stderr w) (pipelines w) (log w)
  end.

(** A write to [sys.stdout], whatever it is bound to. *)
Definition write_stdout (i : item) (w : world) : world := write_to (sys_stdout w) i w.

(** A write to [sys.stderr], whatever it is bound to. *)
Definition write_stderr (i : item) (w : world) : world := write_to (sys_stderr w) i w.

Definition write (t : fd * string) (w : world) : world :=
  match fst t with
  | Stdout => write_stdout (Text (snd t)) w
  | Stderr => write_stderr (Text (snd t)) w
  end.

(** The writes of the model framework, in order. *)
Definition emit (ws : list (fd * string)) (w : world) : world :=
  fold_left (fun w t => write t w) ws w.

(** What a statement can raise: an [Exception], or the SystemExit of
    [sys.exit], which [except Exception] does not catch. *)
Inductive raised : Type :=
| Exception (e : exn)
| SystemExit (code : Z).

Definition M (A : Type) : Type := world -> world * (raised + A).

Definition ret {A} (a : A) : M A := fun w => (w, inr a).

Definition bind {A B} (m : M A) (k : A -> M B) : M B :=
  fun w => match m w with
           | (w', inr a) => k a w'
           | (w', inl r) => (w', inl r)
           end.

Definition raise {A} (e : exn) : M A := fun w => (w, inl (Exception e)).

(** [sys.exit(code)] *)
Definition sys_exit {A} (code : Z) : M A := fun w => (w, inl (SystemExit code)).

(** [try: m  except Exception as e: h e] *)
Definition try_except {A} (m : M A) (h : exn -> M A) : M A :=
  fun w => match m w with
           | (w', inl (Exception e)) => h e w'
           | r => r
           end.

(** [try: m  finally: f] *)
Definition try_finally {A} (m : M A) (f : M unit) : M A :=
  fun w => match m w with
           | (w', r) => match f w' with
                        | (w'', inr _) => (w'', r)
                        | (w'', inl e) => (w'', inl e)
                        end
           end.

Definition gets {A} (f : world -> A) : M A := fun w => (w, inr (f w)).

Definition modify (f : world -> world) : M unit := fun w => (f w, inr tt).

(** [print(json.dumps(d), flush=True)] *)
Definition print_json (d : dict) : M unit := modify (write_stdout (Json d)).

(** [print(json.dumps(d), file=sys.stderr)] *)
Definition eprint_json (d : dict) : M unit := modify (write_stderr (Json d)).

(** [print(s, file=sys.stderr)] *)
Definition eprint (s : string) : M unit := modify (write_stderr (Text (s ++ nl))).

(** [io.StringIO()] *)
Definition new_StringIO : M nat :=
  fun w => (mkWorld (outside w) (fd1 w) (fd2 w) (buffers w ++ [[]])%list (sys_stdout w)
                    (sys_stderr w) (pipelines w) (log w),
            inr (List.length (buffers w))).

(** [b.getvalue()] *)
Definition getvalue (id : nat) : M (list item) := gets (fun w => nth id (buffers w) []).

(** [print(content, file=sys.stderr, end='')] for the content of a buffer *)
Definition eprint_content (content : list item) : M unit :=
  modify (fun w => fold_left (fun w i => write_stderr i w) content w).

(** [KPipeline(lang_code=lang_code)] *)
Definition new_pipeline (lang_code : value) : M handle :=
  fun w => match KPipeline lang_code (outside w) with
           | (e, ws, r) =>
               let w' := record (Constructed lang_code r) (emit ws (set_outside e w)) in
               match r with
               | inl ex => (w', inl (Exception ex))
               | inr h => (w', inr h)
               end
           end.

(** [generator = pipeline(text, voice=voice, speed=1, split_pattern=...)]
    followed by [for gs, ps, audio in generator: audio_segments.append(audio)]
    on an empty [audio_segments]: the list it ends with, when the loop ends. *)
Definition run_pipeline (pipeline : handle) (text voice : value) (speed : Z)
    (split_pattern : string) : M (list (list sample)) :=
  fun w => match call_pipeline pipeline text voice speed split_pattern (outside w) with
           | (e, ws, segs, stop) =>
               let w' := record (Synthesised pipeline text voice) (emit ws (set_outside e w)) in
               match stop with
               | Some ex => (w', inl (Exception ex))
               | None => (w', inr segs)
               end
           end.

(** [sf.write(file, data, samplerate)] *)
Definition write_wav (file : value) (data : list sample) (samplerate : Z) : M unit :=
  fun w => match sf_write file data samplerate (outside w) with
           | (e, r) =>
               let w' := record (Written file data samplerate r) (set_outside e w) in
               match r with
               | Some ex => (w', inl (Exception ex))
               | None => (w', inr tt)
               end
           end.

(** The dict literals of the two scripts. *)
Definition failure (msg : string) : dict :=
  [("success", VBool false); ("error", VStr msg)].

Definition generated (output_path : value) (duration : float) : dict :=
  [("success", VBool true); ("output_path", output_path);
   ("duration", VFloat duration); ("sample_rate", VInt 24000)].

Definition pong : dict := [("success", VBool true); ("message", VStr "pong")].

(** What is left of a process when its script ends: the state it ends in and
    the exit status. An exception nobody caught is reported on [sys.stderr]
    and the status is 1; [sys.exit(c)] gives status [c]. *)
Record outcome : Type := mkOutcome {
  final : world;
  status : Z
}.

Definition finish {A} (r : world * (raised + A)) : outcome :=
  match r with
  | (w, inr _) => mkOutcome w 0
  | (w, inl (SystemExit c)) => mkOutcome w c
  | (w, inl (Exception e)) => mkOutcome (write_stderr (Traceback e) w) 1
  end.

End Process.

Declare Scope py_scope.
Delimit Scope py_scope with py.
Notation "x <- m ;; k" := (bind m (fun x => k))
  (at level 61, m at next level, right associativity) : py_scope.
Notation "m ;; k" := (bind m (fun _ => k))
  (at level 61, right associativity) : py_scope.

#[local] Open Scope py_scope.

Section Imports.
Context {X : External}.

(** [except ImportError] at the top of both modules. *)
Definition not_installed : M unit :=
  eprint "ERROR: kokoro package not installed. Install with: pip install kokoro>=0.9.4" ;;
  sys_exit 1.

End Imports.

End Runtime.
Import Runtime.
Open Scope py_scope.

(** ** kokoro_python_server.py *)

Module Server.

Section Script.
Context {X : External}.

(** [k in pipelines] and [pipelines[k]]: the handle stored under a key equal
    to [k]. *)
Fixpoint lookup (k : value) (p : list (value * handle)) : option handle :=
  match p with
  | [] => None
  | (k', h) :: p' => if key_eq k' k then Some h else lookup k p'
  end.

(** [pipelines[k] = h] for a [k] that is not in the dict *)
Definition store (k : value) (h : handle) : M unit :=
  modify (fun w => set_pipelines (pipelines w ++ [(k, h)]) w).

Definition get_pipeline (lang_code : value) : M handle :=
  if negb (hashable lang_code) then
    raise (Exn "TypeError" ("unhashable type: '" ++ type_name lang_code ++ "'"))
  else
    p <- gets pipelines ;;
    match lookup lang_code p with
    | Some h => ret h
    | None =>
        h <- new_pipeline lang_code ;;
        store lang_code h ;;
        ret h
    end.

Definition generate_audio (text voice lang_code output_path : value) : M dict :=
  try_except
    (pipeline <- get_pipeline lang_code ;;
     audio_segments <- run_pipeline pipeline text voice 1 "\n+" ;;
     match audio_segments with
     | [] => ret (failure "No audio generated")
     | _ :: _ =>
         let full_audio := List.concat audio_segments in
         write_wav output_path full_audio 24000 ;;
         let duration := truediv (Z.of_nat (List.length full_audio)) 24000%float in
         ret (generated output_path duration)
     end)
    (fun e => ret (failure (str e))).

(** [command.get(key)]: an AttributeError when [command] is not a dict. *)
Definition dot_get (command : value) (key : string) : M value :=
  match command with
  | VDict d => ret (dict_get d key)
  | _ => raise (Exn "AttributeError"
                    ("'" ++ type_name command ++ "' object has no attribute 'get'"))
  end.

(** How the body of the [for] ends: the next line ([continue], or the end of
    the body), or [break]. *)
Inductive flow : Type := Next | Break.

Definition body (line : string) : M flow :=
  if (strip line =? "")%string then ret Next
  else
    match json_loads (strip line) with
    | None =>
        print_json (failure "Invalid JSON") ;;
        ret Next
    | Some command =>
        action <- dot_get command "action" ;;
        if eq_str action "generate" then
          text <- dot_get command "text" ;;
          voice <- dot_get command "voice" ;;
          lang_code <- dot_get command "lang_code" ;;
          output_path <- dot_get command "output_path" ;;
          if negb (all [text; voice; lang_code; output_path]) then
            print_json (failure "Missing required parameters") ;;
            ret Next
          else
            result <- generate_audio text voice lang_code output_path ;;
            print_json result ;;
            ret Next
        else
          action <- dot_get command "action" ;;
          if eq_str action "ping" then
            print_json pong ;;
            ret Next
          else
            action <- dot_get command "action" ;;
            if eq_str action "exit" then ret Break
            else
              print_json (failure "Unknown action") ;;
              ret Next
    end.

(** [for line in sys.stdin: body] *)
Fixpoint for_lines (stdin : list string) : M unit :=
  match stdin with
  | [] => ret tt
  | line :: rest =>
      f <- body line ;;
      match f with
      | Next => for_lines rest
      | Break => ret tt
      end
  end.

(** [stdin] is the list of the lines the process can read, to the end of its
    input. (No signal arrives: KeyboardInterrupt is not raised.) *)
Definition main (stdin : list string) : M unit :=
  try_except (for_lines stdin) (fun e => eprint_json (failure (str e))).

(** The module, run as a script: the import, then [main()]. *)
Definition script (installed : bool) (stdin : list string) (e : env) : outcome :=
  finish ((if installed then main stdin else not_installed) (initial e)).

End Script.

End Server.

(** ** kokoro_python_helper.py *)

Module Helper.

Section Script.
Context {X : External}.

(** [sys.argv[i]] *)
Definition argv_get (argv : list string) (i : nat) : M string :=
  match nth_error argv i with
  | Some s => ret s
  | None => raise (Exn "IndexError" "list index out of range")
  end.

Definition usage : string :=
  "ERROR: Usage: python kokoro_python_helper.py <text> <voice> <lang_code> <output_path>".

Definition main (argv : list string) : M unit :=
  (if (List.length argv <? 4)%nat then eprint usage ;; sys_exit 1 else ret tt) ;;
  text <- argv_get argv 1 ;;
  voice <- argv_get argv 2 ;;
  lang_code <- argv_get argv 3 ;;
  output_path <- argv_get argv 4 ;;
  try_except
    (original_stdout <- gets sys_stdout ;;
     original_stderr <- gets sys_stderr ;;
     stdout_buffer <- new_StringIO ;;
     stderr_buffer <- new_StringIO ;;
     modify (set_sys_stdout (StringIO stdout_buffer)) ;;
     modify (set_sys_stderr (StringIO stderr_buffer)) ;;
     audio_segments <-
       try_finally
         (pipeline <- new_pipeline (VStr lang_code) ;;
          run_pipeline pipeline (VStr text) (VStr voice) 1 "\n+")
         (modify (set_sys_stdout original_stdout) ;;
          modify (set_sys_stderr original_stderr) ;;
          stderr_content <- getvalue stderr_buffer ;;
          match stderr_content with
          | _ :: _ => eprint_content stderr_content
          | [] => ret tt
          end) ;;
     match audio_segments with
     | _ :: _ =>
         let full_audio := List.concat audio_segments in
         write_wav (VStr output_path) full_audio 24000 ;;
         let duration := truediv (Z.of_nat (List.length full_audio)) 24000%float in
         print_json (generated (VStr output_path) duration)
     | [] =>
         eprint_json (failure "No audio generated") ;;
         sys_exit 1
     end)
    (fun e => eprint_json (failure (str e)) ;; sys_exit 1).

(** The module, run as a script: the import, then [main()]. *)
Definition script (installed : bool) (argv : list string) (e : env) : outcome :=
  finish ((if installed then main argv else not_installed) (initial e)).

End Script.

End Helper.

(** ** Fake capabilities

    Small instances of [External], as a test suite would have them: a
    decoder that knows a handful of request lines (and raises JSONDecodeError
    on every other line), a pipeline factory and generator whose behaviour
    is chosen per instance, and an encoder that always succeeds. Handles are
    strings, samples are integers, and there is no hidden state. *)

Module Fake.

Definition dq : string := String (ascii_of_nat 34) EmptyString.

(** A JSON string literal without escapes, and an object of string fields. *)
Definition quoted (s : string) : string := dq ++ s ++ dq.

Definition object (fields : list (string * string)) : string :=
  "{" ++ String.concat ", " (map (fun kv => quoted (fst kv) ++ ": " ++ quoted (snd kv)) fields)
      ++ "}".

Definition decoded (fields : list (string * string)) : value :=
  VDict (map (fun kv => (fst kv, VStr (snd kv))) fields).

Definition ping_fields : list (string * string) := [("action", "ping")].

Definition exit_fields : list (string * string) := [("action", "exit")].

Definition generate_fields (lang_code : string) : list (string * string) :=
  [("action", "generate"); ("text", "hola"); ("voice", "ef_dora");
   ("lang_code", lang_code); ("output_path", "out.wav")].

(** A generate request with an empty voice. *)
Definition incomplete_fields : list (string * string) :=
  [("action", "generate"); ("text", "hola"); ("voice", "");
   ("lang_code", "e"); ("output_path", "out.wav")].

Definition ping_line : string := object ping_fields ++ nl.

Definition exit_line : string := object exit_fields ++ nl.

Definition generate_line (lang_code : string) : string :=
  object (generate_fields lang_code) ++ nl.

Definition incomplete_line : string := object incomplete_fields ++ nl.

(** A JSON document that is a number, not an object. *)
Definition number_line : string := "42" ++ nl.

Definition garbage_line : string := "not json" ++ nl.

Definition documents : list (string * value) :=
  [(object ping_fields, decoded ping_fields);
   (object exit_fields, decoded exit_fields);
   (object (generate_fields "e"), decoded (generate_fields "e"));
   (object (generate_fields "a"), decoded (generate_fields "a"));
   (object incomplete_fields, decoded incomplete_fields);
   ("42", VInt 42)].

Fixpoint decode (docs : list (string * value)) (s : string) : option value :=
  match docs with
  | [] => None
  | (k, v) :: docs' => if (k =? s)%string then Some v else decode docs' s
  end.

(** The instance with constructor [ctor] and generator [gen]. *)
Definition make (ctor : value -> list (fd * string) * (exn + string))
    (gen : list (fd * string) * list (list Z) * option exn) : External :=
  {| env := unit;
     handle := string;
     sample := Z;
     json_loads := decode documents;
     KPipeline := fun lang_code e => (e, fst (ctor lang_code), snd (ctor lang_code));
     call_pipeline := fun _ _ _ _ _ e => (e, fst (fst gen), snd (fst gen), snd gen);
     sf_write := fun _ _ _ e => (e, None) |}.

(** Two chunks, of two samples and of one, and a warning on stderr. *)
Definition two_chunks : list (fd * string) * list (list Z) * option exn :=
  ([(Stderr, "UserWarning: dropout" ++ nl)], [[10; 20]; [30]], None).

(** A generator that ends without a chunk. *)
Definition no_chunk : list (fd * string) * list (list Z) * option exn :=
  ([], [], None).

(** A factory whose handle for a code is the name [pipeline-<code>]. *)
Definition named (lang_code : value) : exn + string :=
  match lang_code with
  | VStr s => inr ("pipeline-" ++ s)
  | _ => inl (Exn "AssertionError" (type_name lang_code))
  end.

(** The framework writes only to stderr. *)
Definition quiet : External :=
  make (fun k => ([(Stderr, "WARNING: Defaulting repo_id" ++ nl)], named k)) two_chunks.

(** The framework reports its progress on stdout. *)
Definition noisy : External :=
  make (fun k => ([(Stdout, "loading voices" ++ nl)], named k)) two_chunks.

(** The constructor raises, whatever the code. *)
Definition broken : External :=
  make (fun _ => ([], inl (Exn "RuntimeError" "model weights not found"))) two_chunks.

(** The model yields no audio. *)
Definition mute : External :=
  make (fun k => ([], named k)) no_chunk.

(** The generator yields one chunk and then raises. *)
Definition stuttering : External :=
  make (fun k => ([(Stdout, "loading voices" ++ nl)], named k))
       ([(Stderr, "UserWarning: dropout" ++ nl)], [[10; 20]],
        Some (Exn "RuntimeError" "CUDA out of memory")).

(** The model yields one chunk, without a sample. *)
Definition silence : External :=
  make (fun k => ([], named k)) ([], [[]], None).





(** Two chunks, of 250 samples and of 125: 375 samples, 1/64 of a second. *)
Definition tone_chunks : list (list Z) := [repeat 7 250%nat; repeat 9 125%nat].

Definition tone : External :=
  make (fun k => ([(Stdout, "loading voices" ++ nl)], named k))
       ([(Stderr, "UserWarning: dropout" ++ nl)], tone_chunks, None).

End Fake.

(** ** The vocabulary of the properties *)

Module Props.

Section Vocabulary.
Context {X : External}.

(** The two shapes of a response. *)
Definition success_response (d : dict) : Prop :=
  (exists output_path duration,
      d = [("success", VBool true); ("output_path", output_path);
           ("duration", VFloat duration); ("sample_rate", VInt 24000)])
  \/ d = [("success", VBool true); ("message", VStr "pong")].

Definition failure_response (d : dict) : Prop :=
  exists msg, d = [("success", VBool false); ("error", VStr msg)].

Definition response (d : dict) : Prop := success_response d \/ failure_response d.

(** A line that is the [json.dumps] of a dict. *)
Definition is_json (i : item) : Prop :=
  match i with
  | Json _ => True
  | _ => False
  end.

Definition is_text (i : item) : Prop :=
  match i with
  | Text _ => True
  | _ => False
  end.

(** The responses on a stream are well shaped. *)
Definition shaped (i : item) : Prop :=
  match i with
  | Json d => response d
  | _ => True
  end.


(** A line of input that holds the request [d]. *)
Definition request (line : string) (d : dict) : Prop :=
  strip line <> "" /\ json_loads (strip line) = Some (VDict d).

(** The calls of the constructor for the code [s] in a log, and those that
    returned a handle. *)
Definition is_attempt (s : string) (ev : event) : bool :=
  match ev with
  | Constructed (VStr s') _ => (s' =? s)%string
  | _ => false
  end.

Definition is_success (s : string) (ev : event) : bool :=
  match ev with
  | Constructed (VStr s') (inr _) => (s' =? s)%string
  | _ => false
  end.

Definition attempts (s : string) (l : list event) : nat :=
  List.length (filter (is_attempt s) l).

Definition successes (s : string) (l : list event) : nat :=
  List.length (filter (is_success s) l).

(** The number of samples in a list of chunks. *)
Definition total (segs : list (list sample)) : nat :=
  fold_right (fun seg n => (List.length seg + n)%nat) 0%nat segs.

(** The model framework never writes to [sys.stdout]. *)
Definition stdout_silent : Prop :=
  (forall k e, Forall (fun t => fst t = Stderr) (snd (fst (KPipeline k e)))) /\
  (forall h t v sp pat e,
      Forall (fun t => fst t = Stderr) (snd (fst (fst (call_pipeline h t v sp pat e))))).

(** [m] keeps the invariant [I]. *)
Definition inv (I : world -> Prop) {A} (m : M A) : Prop :=
  forall w, I w -> I (fst (m w)).

(** What [m] returns, when it returns, satisfies [P]. *)
Definition returns {A} (P : A -> Prop) (m : M A) : Prop :=
  forall w w' a, m w = (w', inr a) -> P a.

(** The part of the state that is not a stream. *)
Definition rest_of (w : world) : env * stream * stream * list (value * handle) * list event :=
  (outside w, sys_stdout w, sys_stderr w, pipelines w, log w).

(** A property of items that holds on the three stores of text. *)
Definition everywhere (P : item -> Prop) (w : world) : Prop :=
  Forall P (fd1 w) /\ Forall P (fd2 w) /\ Forall (Forall P) (buffers w).

(** The server never rebinds [sys.stdout] and [sys.stderr]; its standard
    output holds responses only as long as the framework keeps off it. *)
Definition plain (w : world) : Prop :=
  Forall is_json (fd1 w) /\ sys_stdout w = Fd Stdout /\ sys_stderr w = Fd Stderr.

(** What a list of writes leaves in the buffers [a] (for stdout) and [b] (for
    stderr). *)
Definition capture (a b : nat) (ws : list (fd * string)) (bs : list (list item))
  : list (list item) :=
  fold_left
    (fun bs t => put_at (match fst t with Stdout => a | Stderr => b end) (Text (snd t)) bs)
    ws bs.

(** Printing the content of a buffer on the stderr of the process. *)
Definition replay (content : list item) (l : list item) : list item :=
  fold_left (fun l i => put i l) content l.

(** What a run of the helper with four arguments or more leaves behind, by
    what the capabilities do: [r] is what [main] raises or returns, [pre]
    the captured text of the framework, printed back on stderr. *)
Definition helper_run (text voice lang_code output_path : string) (e : env)
    (w : world) (r : raised + unit) : Prop :=
  exists pre, Forall is_text pre /\
  match KPipeline (VStr lang_code) e with
  | (e1, _, inl ex) =>
      r = inl (SystemExit 1) /\ fd1 w = [] /\
      fd2 w = (pre ++ [Json (failure (str ex))])%list /\
      log w = [Constructed (VStr lang_code) (inl ex)]
  | (e1, _, inr h) =>
      match call_pipeline h (VStr text) (VStr voice) 1 "\n+" e1 with
      | (e2, _, _, Some ex) =>
          r = inl (SystemExit 1) /\ fd1 w = [] /\
          fd2 w = (pre ++ [Json (failure (str ex))])%list /\
          log w = [Constructed (VStr lang_code) (inr h);
                   Synthesised h (VStr text) (VStr voice)]
      | (e2, _, [], None) =>
          r = inl (SystemExit 1) /\ fd1 w = [] /\
          fd2 w = (pre ++ [Json (failure "No audio generated")])%list /\
          log w = [Constructed (VStr lang_code) (inr h);
                   Synthesised h (VStr text) (VStr voice)]
      | (e2, _, (_ :: _) as segs, None) =>
          match sf_write (VStr output_path) (List.concat segs) 24000 e2 with
          | (e3, Some ex) =>
              r = inl (SystemExit 1) /\ fd1 w = [] /\
              fd2 w = (pre ++ [Json (failure (str ex))])%list /\
              log w = [Constructed (VStr lang_code) (inr h);
                       Synthesised h (VStr text) (VStr voice);
                       Written (VStr output_path) (List.concat segs) 24000 (Some ex)]
          | (e3, None) =>
              r = inr tt /\
              fd1 w = [Json (generated (VStr output_path)
                               (truediv (Z.of_nat (List.length (List.concat segs)))
                                        24000%float))] /\
              fd2 w = pre /\
              log w = [Constructed (VStr lang_code) (inr h);
                       Synthesised h (VStr text) (VStr voice);
                       Written (VStr output_path) (List.concat segs) 24000 None]
          end
      end
  end.

(** The state after the shim: the streams are back, the captured stderr has
    been printed. *)
Definition after_shim (e : env) (bs : list (list item)) (l : list event) : world :=
  mkWorld e [] (replay (nth 1 bs []) []) bs (Fd Stdout) (Fd Stderr) [] l.

Definition is_constructed (ev : event) : bool :=
  match ev with
  | Constructed _ _ => true
  | _ => false
  end.

(** What a step of the server does to the cache and to the log: it leaves
    the cache alone and calls no constructor, or it calls the constructor for a
    key that is not in the cache, and stores what it returns, if it returns. *)
Inductive cache_step : world -> world -> Prop :=
| cache_keep w w' evs :
    pipelines w' = pipelines w ->
    log w' = (log w ++ evs)%list ->
    Forall (fun ev => is_constructed ev = false) evs ->
    cache_step w w'
| cache_fail w w' k ex :
    Server.lookup k (pipelines w) = None ->
    pipelines w' = pipelines w ->
    log w' = (log w ++ [Constructed k (inl ex)])%list ->
    cache_step w w'
| cache_store w w' k h :
    Server.lookup k (pipelines w) = None ->
    pipelines w' = (pipelines w ++ [(k, h)])%list ->
    log w' = (log w ++ [Constructed k (inr h)])%list ->
    cache_step w w'.

Inductive cache_run (w : world) : world -> Prop :=
| run_start : cache_run w w
| run_step w1 w2 : cache_run w w1 -> cache_step w1 w2 -> cache_run w w2.

(** Every handle in the cache was returned by the constructor. *)
Definition all_constructed (w : world) : Prop :=
  forall k h, In (k, h) (pipelines w) -> In (Constructed k (inr h)) (log w).

(** Once the constructor has returned a handle for [s], the handle is in the
    cache and the constructor is not called for [s] again. *)
Definition settled (s : string) (w : world) : Prop :=
  forall l1 h l2,
    log w = (l1 ++ Constructed (VStr s) (inr h) :: l2)%list ->
    attempts s l2 = 0%nat /\ Server.lookup (VStr s) (pipelines w) = Some h.

(** A string of whitespace only. *)
Fixpoint all_space (s : string) : bool :=
  match s with
  | EmptyString => true
  | String c s' => isspace c && all_space s'
  end.

(** The lines of the input that are not blank. *)
Definition requests (stdin : list string) : list string :=
  filter (fun line => negb (strip line =? "")%string) stdin.

(** A line the loop answers: not blank, and either not JSON or an object whose
    action is not exit. *)
Definition answered (line : string) : Prop :=
  strip line <> "" /\
  (json_loads (strip line) = None \/
   exists d, json_loads (strip line) = Some (VDict d) /\
             eq_str (dict_get d "action") "exit" = false).

(** The standard output is [l] and the two names of sys are bound to the
    streams of the process. *)
Definition steady (l : list item) (w : world) : Prop :=
  fd1 w = l /\ sys_stdout w = Fd Stdout /\ sys_stderr w = Fd Stderr.

(** [w'] has what [w] has on the two streams and in the log, and maybe
    more after it. *)
Definition extends (w w' : world) : Prop :=
  exists l1 l2 evs,
    fd1 w' = (fd1 w ++ l1)%list /\ fd2 w' = (fd2 w ++ l2)%list /\
    log w' = (log w ++ evs)%list.

Definition no_traceback (i : item) : Prop :=
  match i with
  | Traceback _ => False
  | _ => True
  end.

(** The text a list of writes puts on the stream [f]: the writes to [f] that
    are not empty, in order. *)
Definition on_stream (f : fd) (t : fd * string) : bool :=
  match f, fst t with
  | Stdout, Stdout | Stderr, Stderr => negb (snd t =? "")%string
  | _, _ => false
  end.

Definition texts (f : fd) (ws : list (fd * string)) : list item :=
  map (fun t => Text (snd t)) (filter (on_stream f) ws).

(** What the framework writes during a run of the helper: the writes of the
    constructor, then those of the generator, when there is one. *)
Definition helper_writes (text voice lang_code : string) (e : env) : list (fd * string) :=
  match KPipeline (VStr lang_code) e with
  | (e1, ws1, inl _) => ws1
  | (e1, ws1, inr h) =>
      (ws1 ++ snd (fst (fst (call_pipeline h (VStr text) (VStr voice) 1 "\n+" e1))))%list
  end.

(** A run of the helper with four arguments or more, in full: the state it
    ends in and what [main] raises or returns, by what the capabilities do. *)
Definition helper_result (text voice lang_code output_path : string) (e : env)
  : world * (raised + unit) :=
  match KPipeline (VStr lang_code) e with
  | (e1, ws1, inl ex) =>
      (write_stderr (Json (failure (str ex)))
         (after_shim e1 (capture 0 1 ws1 [[]; []]) [Constructed (VStr lang_code) (inl ex)]),
       inl (SystemExit 1))
  | (e1, ws1, inr h) =>
      match call_pipeline h (VStr text) (VStr voice) 1 "\n+" e1 with
      | (e2, ws2, segs, stop) =>
          let w := after_shim e2 (capture 0 1 ws2 (capture 0 1 ws1 [[]; []]))
                     [Constructed (VStr lang_code) (inr h);
                      Synthesised h (VStr text) (VStr voice)] in
          match stop, segs with
          | Some ex, _ => (write_stderr (Json (failure (str ex))) w, inl (SystemExit 1))
          | None, [] =>
              (write_stderr (Json (failure "No audio generated")) w, inl (SystemExit 1))
          | None, _ :: _ =>
              match sf_write (VStr output_path) (List.concat segs) 24000 e2 with
              | (e3, Some ex) =>
                  (write_stderr (Json (failure (str ex)))
                     (record (Written (VStr output_path) (List.concat segs) 24000 (Some ex))
                             (set_outside e3 w)),
                   inl (SystemExit 1))
              | (e3, None) =>
                  (write_stdout
                     (Json (generated (VStr output_path)
                              (truediv (Z.of_nat (List.length (List.concat segs)))
                                       24000%float)))
                     (record (Written (VStr output_path) (List.concat segs) 24000 None)
                             (set_outside e3 w)),
                   inr tt)
              end
          end
      end
  end.

(** [m] never raises SystemExit. *)
Definition never_exits {A} (m : M A) : Prop :=
  forall w c, snd (m w) <> inl (SystemExit c).

End Vocabulary.

End Props.
Import Props.

(** ** The scripts at work *)

Example strip_both_ends : strip ("  ping " ++ nl) = "ping".
Proof. reflexivity. Qed.

Example strip_blank : strip (" " ++ nl) = "".
Proof. reflexivity. Qed.

Example zero_is_falsy : all [VStr "a"; VInt 0] = false.
Proof. reflexivity. Qed.

Example nan_is_truthy : truthy (VFloat nan) = true.
Proof. reflexivity. Qed.

Example true_is_one :
  key_eq (VBool true) (VInt 1) = true /\ key_eq (VInt 1) (VFloat 1%float) = true.
Proof. split; reflexivity. Qed.

Example one_and_a_half_is_no_int : key_eq (VInt 1) (VFloat 1.5%float) = false.
Proof. reflexivity. Qed.

(** A session with the server: a ping, a blank line, a line that is not JSON,
    two requests for the code e, a request without voice, exit, and a ping
    that is never read. *)
Example server_session :
  let o := @Server.script Fake.quiet true
             [Fake.ping_line; "  " ++ nl; Fake.garbage_line; Fake.generate_line "e";
              Fake.generate_line "e"; Fake.incomplete_line; Fake.exit_line; Fake.ping_line]
             tt in
  fd1 (final o) =
    [Json pong;
     Json (failure "Invalid JSON");
     Json (generated (VStr "out.wav") (truediv 3 24000%float));
     Json (generated (VStr "out.wav") (truediv 3 24000%float));
     Json (failure "Missing required parameters")] /\
  fd2 (final o) =
    [Text ("WARNING: Defaulting repo_id" ++ nl);
     Text ("UserWarning: dropout" ++ nl);
     Text ("UserWarning: dropout" ++ nl)] /\
  pipelines (final o) = [(VStr "e", "pipeline-e")] /\
  status o = 0.
Proof. repeat split. Qed.

(** The helper with a framework that writes to stdout: the text stays in the
    buffer, stdout holds the result alone. *)
Example helper_run_noisy :
  let o := @Helper.script Fake.noisy true
             ["kokoro_python_helper.py"; "hola"; "ef_dora"; "e"; "out.wav"] tt in
  fd1 (final o) = [Json (generated (VStr "out.wav") (truediv 3 24000%float))] /\
  fd2 (final o) = [Text ("UserWarning: dropout" ++ nl)] /\
  buffers (final o) =
    [[Text ("loading voices" ++ nl)]; [Text ("UserWarning: dropout" ++ nl)]] /\
  status o = 0.
Proof. repeat split. Qed.

(** ** Reasoning about the monad *)

Section Logic.
Context {X : External}.

Lemma inv_ret I A (a : A) : inv I (ret a).
Proof. intros w Hw. exact Hw. Qed.

Lemma inv_raise I A e : inv I (@raise _ A e).
Proof. intros w Hw. exact Hw. Qed.

Lemma inv_sys_exit I A c : inv I (@sys_exit _ A c).
Proof. intros w Hw. exact Hw. Qed.

Lemma inv_gets I A (f : world -> A) : inv I (gets f).
Proof. intros w Hw. exact Hw. Qed.

Lemma inv_modify (I : world -> Prop) f : (forall w, I w -> I (f w)) -> inv I (modify f).
Proof. intros H w Hw. apply H, Hw. Qed.

Lemma inv_bind_returns I A B (P : A -> Prop) (m : M A) (k : A -> M B) :
  inv I m -> returns P m -> (forall a, P a -> inv I (k a)) -> inv I (bind m k).
Proof.
  intros Hm HP Hk w Hw. unfold bind.
  specialize (Hm w Hw). specialize (HP w).
  destruct (m w) as [w' [r | a]]; simpl in *.
  - exact Hm.
  - apply Hk; [eapply HP; reflexivity | exact Hm].
Qed.

Lemma inv_bind I A B (m : M A) (k : A -> M B) :
  inv I m -> (forall a, inv I (k a)) -> inv I (bind m k).
Proof.
  intros Hm Hk. apply inv_bind_returns with (P := fun _ => True); auto.
  intros w w' a _. exact Logic.I.
Qed.

Lemma inv_try_except I A (m : M A) h :
  inv I m -> (forall e, inv I (h e)) -> inv I (try_except m h).
Proof.
  intros Hm Hh w Hw. unfold try_except.
  specialize (Hm w Hw).
  destruct (m w) as [w' [[e | c] | a]]; simpl in *; auto.
  apply Hh, Hm.
Qed.

Lemma inv_try_finally I A (m : M A) f :
  inv I m -> inv I f -> inv I (try_finally m f).
Proof.
  intros Hm Hf w Hw. unfold try_finally.
  specialize (Hm w Hw).
  destruct (m w) as [w' r]; simpl in *.
  specialize (Hf w' Hm).
  destruct (f w') as [w'' [e | u]]; simpl in *; exact Hf.
Qed.

Lemma returns_ret A (P : A -> Prop) a : P a -> returns P (ret a).
Proof. intros H w w' b E. inversion E; subst. exact H. Qed.

Lemma returns_bind A B (P : B -> Prop) (m : M A) (k : A -> M B) :
  (forall a, returns P (k a)) -> returns P (bind m k).
Proof.
  intros Hk w w' b E. unfold bind in E.
  destruct (m w) as [w1 [r | a]]; [discriminate|].
  eapply Hk, E.
Qed.

Lemma returns_try_except A (P : A -> Prop) (m : M A) h :
  returns P m -> (forall e, returns P (h e)) -> returns P (try_except m h).
Proof.
  intros Hm Hh w w' a E. unfold try_except in E.
  destruct (m w) as [w1 [[e | c] | a1]] eqn:Em.
  - eapply Hh, E.
  - discriminate.
  - inversion E; subst. eapply Hm, Em.
Qed.

End Logic.

Create HintDb inv.
#[local] Hint Resolve inv_ret inv_raise inv_sys_exit inv_gets : inv.

(** ** The server: invariants of the command loop *)

Section ServerInvariants.
Context {X : External}.

Lemma inv_dot_get I command key : inv I (Server.dot_get command key).
Proof. destruct command; simpl; auto with inv. Qed.

(** Every response the adapter returns is a well-shaped one. *)
Lemma generate_audio_response text voice lang_code output_path :
  returns response (Server.generate_audio text voice lang_code output_path).
Proof.
  unfold Server.generate_audio.
  apply returns_try_except.
  - apply returns_bind; intros pipeline.
    apply returns_bind; intros [| seg segs].
    + apply returns_ret. right. eexists. reflexivity.
    + apply returns_bind; intros _.
      apply returns_ret. left. left. eexists _, _. reflexivity.
  - intros e. apply returns_ret. right. eexists. reflexivity.
Qed.

Section Invariant.
Variable I : world -> Prop.
Hypothesis I_print : forall d, response d -> inv I (print_json d).
Hypothesis I_eprint : forall d, response d -> inv I (eprint_json d).
Hypothesis I_get_pipeline : forall k, inv I (Server.get_pipeline k).
Hypothesis I_run_pipeline : forall h t v sp pat, inv I (run_pipeline h t v sp pat).
Hypothesis I_write_wav : forall f d r, inv I (write_wav f d r).

Lemma failure_is_response msg : response (failure msg).
Proof. right. eexists. reflexivity. Qed.

Lemma pong_is_response : response pong.
Proof. left. right. reflexivity. Qed.

Lemma generated_is_response p f : response (generated p f).
Proof. left. left. eexists _, _. reflexivity. Qed.

Lemma inv_generate_audio text voice lang_code output_path :
  inv I (Server.generate_audio text voice lang_code output_path).
Proof.
  unfold Server.generate_audio.
  apply inv_try_except; [| auto with inv].
  apply inv_bind; [apply I_get_pipeline | intros pipeline].
  apply inv_bind; [apply I_run_pipeline | intros [| seg segs]]; [auto with inv |].
  apply inv_bind; [apply I_write_wav | auto with inv].
Qed.

Lemma inv_body line : inv I (Server.body line).
Proof.
  unfold Server.body.
  destruct (strip line =? "")%string; [auto with inv |].
  destruct (json_loads (strip line)) as [command |].
  2:{ apply inv_bind; [apply I_print, failure_is_response | auto with inv]. }
  apply inv_bind; [apply inv_dot_get | intros action].
  destruct (eq_str action "generate").
  - do 4 (apply inv_bind; [apply inv_dot_get | intros ?]).
    destruct (negb _).
    + apply inv_bind; [apply I_print, failure_is_response | auto with inv].
    + apply inv_bind_returns with (P := response).
      * apply inv_generate_audio.
      * apply generate_audio_response.
      * intros d Hd. apply inv_bind; [apply I_print, Hd | auto with inv].
  - apply inv_bind; [apply inv_dot_get | intros action'].
    destruct (eq_str action' "ping").
    + apply inv_bind; [apply I_print, pong_is_response | auto with inv].
    + apply inv_bind; [apply inv_dot_get | intros action''].
      destruct (eq_str action'' "exit"); [auto with inv |].
      apply inv_bind; [apply I_print, failure_is_response | auto with inv].
Qed.

Lemma inv_for_lines stdin : inv I (Server.for_lines stdin).
Proof.
  induction stdin as [| line rest IH]; simpl; [auto with inv |].
  apply inv_bind; [apply inv_body | intros [|]]; auto with inv.
Qed.

(** An invariant of the prints and of the calls of the capabilities is an
    invariant of the command loop. *)
Lemma inv_main stdin : inv I (Server.main stdin).
Proof.
  unfold Server.main. apply inv_try_except; [apply inv_for_lines |].
  intros e. apply I_eprint, failure_is_response.
Qed.

End Invariant.

End ServerInvariants.

(** ** Writes and streams *)

Section Streams.
Context {X : External}.

Lemma write_to_rest s i w : rest_of (write_to s i w) = rest_of w.
Proof. destruct s as [[|] | id]; reflexivity. Qed.

Lemma write_rest t w : rest_of (write t w) = rest_of w.
Proof.
  unfold write, write_stdout, write_stderr.
  destruct (fst t); apply write_to_rest.
Qed.

Lemma emit_rest ws w : rest_of (emit ws w) = rest_of w.
Proof.
  unfold emit. revert w.
  induction ws as [| t ws IH]; intros w; simpl; [reflexivity |].
  rewrite IH. apply write_rest.
Qed.

Lemma emit_fields ws w :
  outside (emit ws w) = outside w /\ sys_stdout (emit ws w) = sys_stdout w /\
  sys_stderr (emit ws w) = sys_stderr w /\ pipelines (emit ws w) = pipelines w /\
  log (emit ws w) = log w.
Proof.
  pose proof (emit_rest ws w) as E. unfold rest_of in E.
  inversion E. repeat split; assumption.
Qed.

Lemma put_Forall (P : item -> Prop) i l : P i -> Forall P l -> Forall P (put i l).
Proof.
  intros Hi Hl. unfold put. destruct (visible i); [| exact Hl].
  apply Forall_app. split; [exact Hl | constructor; [exact Hi | constructor]].
Qed.

Lemma put_at_Forall (P : item -> Prop) id i bs :
  P i -> Forall (Forall P) bs -> Forall (Forall P) (put_at id i bs).
Proof.
  intros Hi. revert id.
  induction bs as [| b bs IH]; intros id Hbs; [destruct id; constructor |].
  inversion Hbs; subst.
  destruct id; simpl; constructor; auto using put_Forall.
Qed.

Lemma write_to_everywhere (P : item -> Prop) s i w :
  P i -> everywhere P w -> everywhere P (write_to s i w).
Proof.
  intros Hi (H1 & H2 & H3).
  destruct s as [[|] | id]; unfold everywhere; simpl;
    auto using put_Forall, put_at_Forall.
Qed.

Lemma emit_everywhere (P : item -> Prop) ws w :
  (forall s, P (Text s)) -> everywhere P w -> everywhere P (emit ws w).
Proof.
  intros HP. unfold emit. revert w.
  induction ws as [| t ws IH]; intros w Hw; simpl; [exact Hw |].
  apply IH. unfold write, write_stdout, write_stderr.
  destruct (fst t); apply write_to_everywhere; auto.
Qed.

(** [everywhere P] looks at the streams only. *)
Lemma everywhere_ext (P : item -> Prop) w w' :
  fd1 w' = fd1 w -> fd2 w' = fd2 w -> buffers w' = buffers w ->
  everywhere P w -> everywhere P w'.
Proof. unfold everywhere. intros -> -> ->. auto. Qed.

(** The calls of the capabilities, through [emit]. *)
Lemma new_pipeline_world k w :
  fst (new_pipeline k w) =
  record (Constructed k (snd (KPipeline k (outside w))))
         (emit (snd (fst (KPipeline k (outside w))))
               (set_outside (fst (fst (KPipeline k (outside w)))) w)).
Proof.
  unfold new_pipeline.
  destruct (KPipeline k (outside w)) as [[e ws] [ex | h]]; reflexivity.
Qed.

Lemma run_pipeline_world h t v sp pat w :
  fst (run_pipeline h t v sp pat w) =
  record (Synthesised h t v)
         (emit (snd (fst (fst (call_pipeline h t v sp pat (outside w)))))
               (set_outside (fst (fst (fst (call_pipeline h t v sp pat (outside w))))) w)).
Proof.
  unfold run_pipeline.
  destruct (call_pipeline h t v sp pat (outside w)) as [[[e ws] segs] [ex |]]; reflexivity.
Qed.

Lemma write_wav_world f d r w :
  fst (write_wav f d r w) =
  record (Written f d r (snd (sf_write f d r (outside w))))
         (set_outside (fst (sf_write f d r (outside w))) w).
Proof.
  unfold write_wav.
  destruct (sf_write f d r (outside w)) as [e [ex |]]; reflexivity.
Qed.

Lemma inv_new_pipeline_everywhere P k :
  (forall s, P (Text s)) -> inv (everywhere P) (new_pipeline k).
Proof.
  intros HP w Hw. rewrite new_pipeline_world.
  eapply everywhere_ext; [reflexivity | reflexivity | reflexivity |].
  apply emit_everywhere; [exact HP |].
  eapply everywhere_ext; [reflexivity | reflexivity | reflexivity | exact Hw].
Qed.

Lemma inv_run_pipeline_everywhere P h t v sp pat :
  (forall s, P (Text s)) -> inv (everywhere P) (run_pipeline h t v sp pat).
Proof.
  intros HP w Hw. rewrite run_pipeline_world.
  eapply everywhere_ext; [reflexivity | reflexivity | reflexivity |].
  apply emit_everywhere; [exact HP |].
  eapply everywhere_ext; [reflexivity | reflexivity | reflexivity | exact Hw].
Qed.

Lemma inv_write_wav_everywhere P f d r : inv (everywhere P) (write_wav f d r).
Proof.
  intros w Hw. rewrite write_wav_world.
  eapply everywhere_ext; [reflexivity | reflexivity | reflexivity | exact Hw].
Qed.

Lemma inv_get_pipeline_everywhere P k :
  (forall s, P (Text s)) -> inv (everywhere P) (Server.get_pipeline k).
Proof.
  intros HP. unfold Server.get_pipeline.
  destruct (negb (hashable k)); [auto with inv |].
  apply inv_bind; [auto with inv | intros p].
  destruct (Server.lookup k p); [auto with inv |].
  apply inv_bind; [apply inv_new_pipeline_everywhere, HP | intros h].
  apply inv_bind; [| auto with inv].
  apply inv_modify. intros w Hw. exact Hw.
Qed.

End Streams.

(** ** The shapes of the responses *)

Section Shapes.
Context {X : External}.

Lemma shaped_text s : shaped (Text s).
Proof. exact Logic.I. Qed.

Lemma inv_print_everywhere (P : item -> Prop) d :
  P (Json d) -> inv (everywhere P) (print_json d).
Proof. intros Hd. apply inv_modify. intros w Hw. apply write_to_everywhere; assumption. Qed.

Lemma inv_eprint_json_everywhere (P : item -> Prop) d :
  P (Json d) -> inv (everywhere P) (eprint_json d).
Proof. intros Hd. apply inv_modify. intros w Hw. apply write_to_everywhere; assumption. Qed.

Lemma inv_eprint_everywhere (P : item -> Prop) s :
  (forall t, P (Text t)) -> inv (everywhere P) (eprint s).
Proof. intros HP. apply inv_modify. intros w Hw. apply write_to_everywhere; auto. Qed.

Lemma inv_eprint_content_everywhere (P : item -> Prop) content :
  Forall P content -> inv (everywhere P) (eprint_content content).
Proof.
  intros Hc. apply inv_modify.
  induction Hc as [| i content Hi Hc IH]; intros w Hw; simpl; [exact Hw |].
  apply IH. apply write_to_everywhere; assumption.
Qed.

Lemma nth_Forall (P : item -> Prop) id bs :
  Forall (Forall P) bs -> Forall P (nth id bs []).
Proof.
  intros H. revert id.
  induction H as [| b bs Hb _ IH]; intros [| id]; simpl; auto.
Qed.

(** The server keeps every response it writes well shaped. *)
Lemma server_main_shaped stdin : inv (everywhere shaped) (Server.main stdin).
Proof.
  apply inv_main.
  - intros d Hd. apply inv_print_everywhere, Hd.
  - intros d Hd. apply inv_eprint_json_everywhere, Hd.
  - intros k. apply inv_get_pipeline_everywhere, shaped_text.
  - intros. apply inv_run_pipeline_everywhere, shaped_text.
  - intros. apply inv_write_wav_everywhere.
Qed.

Lemma inv_not_installed_everywhere (P : item -> Prop) :
  (forall t, P (Text t)) -> inv (everywhere P) not_installed.
Proof.
  intros HP. unfold not_installed.
  apply inv_bind; [apply inv_eprint_everywhere, HP | auto with inv].
Qed.

(** The shim of the helper: what runs between the two rebindings and the
    [finally] that undoes them. *)
Lemma inv_shim_everywhere (P : item -> Prop) lang_code text voice so se b :
  (forall t, P (Text t)) ->
  inv (everywhere P)
      (try_finally
         (pipeline <- new_pipeline lang_code ;;
          run_pipeline pipeline text voice 1 "\n+")
         (modify (set_sys_stdout so) ;;
          modify (set_sys_stderr se) ;;
          stderr_content <- getvalue b ;;
          match stderr_content with
          | _ :: _ => eprint_content stderr_content
          | [] => ret tt
          end)).
Proof.
  intros HP. apply inv_try_finally.
  - apply inv_bind; [apply inv_new_pipeline_everywhere, HP | intros h].
    apply inv_run_pipeline_everywhere, HP.
  - intros w Hw. unfold bind, modify, getvalue, gets. simpl.
    assert (Hc : Forall P (nth b (buffers w) [])) by (apply nth_Forall, Hw).
    destruct (nth b (buffers w) []) as [| i content] eqn:E; [exact Hw |].
    apply inv_eprint_content_everywhere; [exact Hc | exact Hw].
Qed.

Lemma helper_main_everywhere (P : item -> Prop) argv :
  (forall t, P (Text t)) -> (forall d, response d -> P (Json d)) ->
  inv (everywhere P) (Helper.main argv).
Proof.
  intros HP HJ. unfold Helper.main.
  apply inv_bind.
  { destruct (_ <? _)%nat; [| auto with inv].
    apply inv_bind; [apply inv_eprint_everywhere, HP | auto with inv]. }
  intros _.
  do 4 (apply inv_bind; [unfold Helper.argv_get; destruct (nth_error _ _); auto with inv |
                         intros ?]).
  apply inv_try_except.
  2:{ intros e. apply inv_bind; [| auto with inv].
      apply inv_eprint_json_everywhere, HJ, failure_is_response. }
  do 2 (apply inv_bind; [auto with inv | intros ?]).
  apply inv_bind.
  { intros w (H1 & H2 & H3). unfold everywhere; simpl. repeat split; auto.
    apply Forall_app. split; [exact H3 | repeat constructor]. }
  intros stdout_buffer. apply inv_bind.
  { intros w (H1 & H2 & H3). unfold everywhere; simpl. repeat split; auto.
    apply Forall_app. split; [exact H3 | repeat constructor]. }
  intros stderr_buffer.
  do 2 (apply inv_bind; [apply inv_modify; intros w Hw; exact Hw | intros _]).
  apply inv_bind; [apply inv_shim_everywhere, HP | intros [| seg segs]].
  - apply inv_bind; [| auto with inv].
    apply inv_eprint_json_everywhere, HJ, failure_is_response.
  - apply inv_bind; [apply inv_write_wav_everywhere | intros _].
    apply inv_print_everywhere, HJ, generated_is_response.
Qed.

Lemma finish_everywhere (P : item -> Prop) A (r : world * (raised + A)) :
  (forall e, P (Traceback e)) -> everywhere P (fst r) -> everywhere P (final (finish r)).
Proof.
  intros HT Hw. destruct r as [w [[e | c] | a]]; simpl in *; auto.
  apply write_to_everywhere; auto.
Qed.

Lemma initial_everywhere (P : item -> Prop) e : everywhere P (initial e).
Proof. unfold everywhere; simpl. auto. Qed.

Lemma server_script_shaped installed stdin e :
  everywhere shaped (final (Server.script installed stdin e)).
Proof.
  unfold Server.script. apply finish_everywhere; [intros; exact Logic.I |].
  destruct installed.
  - apply server_main_shaped, initial_everywhere.
  - apply inv_not_installed_everywhere; [apply shaped_text | apply initial_everywhere].
Qed.

Lemma helper_script_shaped installed argv e :
  everywhere shaped (final (Helper.script installed argv e)).
Proof.
  unfold Helper.script. apply finish_everywhere; [intros; exact Logic.I |].
  destruct installed.
  - apply helper_main_everywhere; [apply shaped_text | auto | apply initial_everywhere].
  - apply inv_not_installed_everywhere; [apply shaped_text | apply initial_everywhere].
Qed.

Lemma response_exclusive d :
  response d ->
  (success_response d /\ ~ failure_response d /\
   dict_get d "success" = VBool true /\ dict_has d "error" = false) \/
  (failure_response d /\ ~ success_response d /\
   dict_get d "success" = VBool false /\ exists msg, dict_get d "error" = VStr msg).
Proof.
  intros [Hs | Hf].
  - left. split; [exact Hs |].
    destruct Hs as [(p & f & ->) | ->]; (split; [intros (msg & E); discriminate |]);
      split; reflexivity.
  - right. split; [exact Hf |].
    destruct Hf as (msg & ->).
    split; [intros [(p & f & E) | E]; discriminate |].
    split; [reflexivity | exists msg; reflexivity].
Qed.

(** C8: every response either script writes, on its standard output or on its
    standard error, has exactly one of the two shapes: success true with
    the fields of its action and no error field, or success false with
    an error string. *)
Theorem response_shapes installed stdin argv e d :
  In (Json d) (fd1 (final (Server.script installed stdin e))) \/
  In (Json d) (fd2 (final (Server.script installed stdin e))) \/
  In (Json d) (fd1 (final (Helper.script installed argv e))) \/
  In (Json d) (fd2 (final (Helper.script installed argv e))) ->
  (success_response d /\ ~ failure_response d /\
   dict_get d "success" = VBool true /\ dict_has d "error" = false) \/
  (failure_response d /\ ~ success_response d /\
   dict_get d "success" = VBool false /\ exists msg, dict_get d "error" = VStr msg).
Proof.
  intros H. apply response_exclusive.
  destruct (server_script_shaped installed stdin e) as (S1 & S2 & _).
  destruct (helper_script_shaped installed argv e) as (H1 & H2 & _).
  rewrite Forall_forall in S1, S2, H1, H2.
  destruct H as [H | [H | [H | H]]].
  - apply (S1 _ H).
  - apply (S2 _ H).
  - apply (H1 _ H).
  - apply (H2 _ H).
Qed.

End Shapes.

(** The ping request is answered with one of the two shapes. *)
Lemma response_shapes_witness :
  (success_response pong /\ ~ failure_response pong /\
   dict_get pong "success" = VBool true /\ dict_has pong "error" = false) \/
  (failure_response pong /\ ~ success_response pong /\
   dict_get pong "success" = VBool false /\ exists msg, dict_get pong "error" = VStr msg).
Proof.
  apply (@response_shapes Fake.quiet true [Fake.ping_line] [] tt pong).
  left. simpl. left. reflexivity.
Defined.

(** ** What reaches the two channels *)

Section Channels.
Context {X : External}.

Lemma plain_ext w w' :
  fd1 w' = fd1 w -> sys_stdout w' = sys_stdout w -> sys_stderr w' = sys_stderr w ->
  plain w -> plain w'.
Proof. unfold plain. intros -> -> ->. auto. Qed.

Lemma plain_print d : inv plain (print_json d).
Proof.
  apply inv_modify. intros w (H1 & H2 & H3).
  unfold write_stdout. rewrite H2. unfold plain; simpl.
  repeat split; auto. apply put_Forall; [exact Logic.I | exact H1].
Qed.

Lemma plain_eprint_json d : inv plain (eprint_json d).
Proof.
  apply inv_modify. intros w (H1 & H2 & H3).
  unfold write_stderr. rewrite H3. unfold plain; simpl. auto.
Qed.

Lemma plain_emit ws w :
  Forall (fun t => fst t = Stderr) ws -> plain w -> plain (emit ws w).
Proof.
  intros Hws. unfold emit. revert w.
  induction Hws as [| t ws Ht _ IH]; intros w Hw; simpl; [exact Hw |].
  apply IH. destruct Hw as (H1 & H2 & H3).
  unfold write. rewrite Ht. unfold write_stderr. rewrite H3.
  unfold plain; simpl. auto.
Qed.

Lemma plain_main stdin : stdout_silent -> inv plain (Server.main stdin).
Proof.
  intros (Hctor & Hgen).
  assert (Hnew : forall k, inv plain (new_pipeline k)).
  { intros k w Hw. rewrite new_pipeline_world.
    eapply plain_ext; [reflexivity | reflexivity | reflexivity |].
    apply plain_emit; [apply Hctor |].
    eapply plain_ext; [reflexivity | reflexivity | reflexivity | exact Hw]. }
  apply inv_main.
  - intros d _. apply plain_print.
  - intros d _. apply plain_eprint_json.
  - intros k. unfold Server.get_pipeline.
    destruct (negb (hashable k)); [auto with inv |].
    apply inv_bind; [auto with inv | intros p].
    destruct (Server.lookup k p); [auto with inv |].
    apply inv_bind; [apply Hnew | intros h].
    apply inv_bind; [| auto with inv].
    apply inv_modify. intros w Hw. exact Hw.
  - intros h t v sp pat w Hw. rewrite run_pipeline_world.
    eapply plain_ext; [reflexivity | reflexivity | reflexivity |].
    apply plain_emit; [apply Hgen |].
    eapply plain_ext; [reflexivity | reflexivity | reflexivity | exact Hw].
  - intros f d r w Hw. rewrite write_wav_world.
    eapply plain_ext; [reflexivity | reflexivity | reflexivity | exact Hw].
Qed.

Lemma server_stdout_json installed stdin e :
  stdout_silent -> Forall is_json (fd1 (final (Server.script installed stdin e))).
Proof.
  intros Hs. unfold Server.script. destruct installed.
  - pose proof (plain_main stdin Hs (initial e)) as H.
    destruct (Server.main stdin (initial e)) as [w [[ex | c] | u]]; simpl in *;
      try (apply H; repeat split; constructor).
    destruct H as (H1 & H2 & H3); [repeat split; constructor |].
    unfold write_stderr. rewrite H3. simpl. exact H1.
  - simpl. constructor.
Qed.

(** *** The shim of the helper *)

(** While the two names are bound to buffers, the writes of the framework go
    to the buffers and nowhere else. *)
Lemma emit_redirected a b ws w :
  sys_stdout w = StringIO a -> sys_stderr w = StringIO b ->
  emit ws w = mkWorld (outside w) (fd1 w) (fd2 w) (capture a b ws (buffers w))
                      (StringIO a) (StringIO b) (pipelines w) (log w).
Proof.
  unfold emit, capture. revert w.
  induction ws as [| t ws IH]; intros w Ha Hb.
  - destruct w; simpl in *. subst. reflexivity.
  - simpl. rewrite IH.
    + unfold write, write_stdout, write_stderr. rewrite Ha, Hb.
      destruct (fst t); reflexivity.
    + rewrite <- Ha. pose proof (write_rest t w) as E. unfold rest_of in E.
      inversion E. reflexivity.
    + rewrite <- Hb. pose proof (write_rest t w) as E. unfold rest_of in E.
      inversion E. reflexivity.
Qed.

Lemma capture_text a b ws bs :
  Forall (Forall is_text) bs -> Forall (Forall is_text) (capture a b ws bs).
Proof.
  unfold capture. revert bs.
  induction ws as [| t ws IH]; intros bs Hbs; simpl; [exact Hbs |].
  apply IH. apply put_at_Forall; [exact Logic.I | exact Hbs].
Qed.

Lemma eprint_content_stderr content w :
  sys_stderr w = Fd Stderr ->
  fold_left (fun w i => write_stderr i w) content w =
  mkWorld (outside w) (fd1 w) (replay content (fd2 w)) (buffers w) (sys_stdout w)
          (Fd Stderr) (pipelines w) (log w).
Proof.
  unfold replay. revert w.
  induction content as [| i content IH]; intros w Hw.
  - destruct w; simpl in *. subst. reflexivity.
  - simpl. rewrite IH.
    + unfold write_stderr. rewrite Hw. reflexivity.
    + unfold write_stderr. rewrite Hw. exact Hw.
Qed.

Lemma replay_text content l :
  Forall is_text content -> Forall is_text l -> Forall is_text (replay content l).
Proof.
  unfold replay. intros Hc. revert l.
  induction Hc as [| i content Hi _ IH]; intros l Hl; simpl; [exact Hl |].
  apply IH. apply put_Forall; assumption.
Qed.

End Channels.

(** ** The helper, path by path *)

Section HelperPaths.
Context {X : External}.

Lemma shim_run text voice lang_code e :
  try_finally
    (pipeline <- new_pipeline lang_code ;;
     run_pipeline pipeline text voice 1 "\n+")
    (modify (set_sys_stdout (Fd Stdout)) ;;
     modify (set_sys_stderr (Fd Stderr)) ;;
     stderr_content <- getvalue 1 ;;
     match stderr_content with
     | _ :: _ => eprint_content stderr_content
     | [] => ret tt
     end)
    (mkWorld e [] [] [[]; []] (StringIO 0) (StringIO 1) [] []) =
  match KPipeline lang_code e with
  | (e1, ws1, inl ex) =>
      (after_shim e1 (capture 0 1 ws1 [[]; []]) [Constructed lang_code (inl ex)],
       inl (Exception ex))
  | (e1, ws1, inr h) =>
      match call_pipeline h text voice 1 "\n+" e1 with
      | (e2, ws2, segs, stop) =>
          (after_shim e2 (capture 0 1 ws2 (capture 0 1 ws1 [[]; []]))
                      [Constructed lang_code (inr h); Synthesised h text voice],
           match stop with
           | Some ex => inl (Exception ex)
           | None => inr segs
           end)
      end
  end.
Proof.
  unfold after_shim, try_finally, bind at 1, new_pipeline. cbn [outside].
  destruct (KPipeline lang_code e) as [[e1 ws1] [ex | h]].
  - rewrite (emit_redirected 0 1) by reflexivity.
    unfold bind, modify, getvalue, gets, eprint_content.
    cbn [record set_outside set_sys_stdout set_sys_stderr
         outside fd1 fd2 buffers sys_stdout sys_stderr pipelines log app fst snd].
    destruct (nth 1 (capture 0 1 ws1 [[]; []]) []) as [| i content] eqn:E.
    + reflexivity.
    + unfold modify. rewrite eprint_content_stderr by reflexivity. reflexivity.
  - rewrite (emit_redirected 0 1) by reflexivity.
    unfold run_pipeline.
    cbn [record set_outside outside fd1 fd2 buffers sys_stdout sys_stderr pipelines log
         app fst snd].
    destruct (call_pipeline h text voice 1 "\n+" e1) as [[[e2 ws2] segs] stop].
    rewrite (emit_redirected 0 1) by reflexivity.
    destruct stop as [ex |];
      unfold bind, modify, getvalue, gets, eprint_content;
      cbn [record set_outside set_sys_stdout set_sys_stderr
           outside fd1 fd2 buffers sys_stdout sys_stderr pipelines log app fst snd];
      (destruct (nth 1 (capture 0 1 ws2 (capture 0 1 ws1 [[]; []])) [])
        as [| i content] eqn:E;
       [reflexivity |
        unfold modify; rewrite eprint_content_stderr by reflexivity; reflexivity]).
Qed.

Lemma bind_ret A B (a : A) (k : A -> M B) : bind (ret a) k = k a.
Proof. reflexivity. Qed.

Lemma captured_text bs :
  Forall (Forall is_text) bs -> Forall is_text (replay (nth 1 bs []) []).
Proof. intros H. apply replay_text; [apply nth_Forall, H | constructor]. Qed.

Lemma two_buffers_text : Forall (Forall is_text) [[]; []].
Proof. repeat constructor. Qed.

Lemma helper_main_run a0 text voice lang_code output_path rest e :
  helper_run text voice lang_code output_path e
    (fst (Helper.main (a0 :: text :: voice :: lang_code :: output_path :: rest) (initial e)))
    (snd (Helper.main (a0 :: text :: voice :: lang_code :: output_path :: rest) (initial e))).
Proof.
  remember (Helper.main (a0 :: text :: voice :: lang_code :: output_path :: rest) (initial e))
    as res eqn:E.
  unfold Helper.main in E.
  cbn [List.length Nat.ltb Nat.leb Helper.argv_get nth_error] in E.
  rewrite !bind_ret in E. unfold try_except in E.
  do 6 (unfold bind at 1 in E;
        cbn [gets new_StringIO modify initial set_sys_stdout set_sys_stderr
             outside fd1 fd2 buffers sys_stdout sys_stderr pipelines log app List.length]
          in E).
  unfold set_sys_stderr, set_sys_stdout in E.
  cbn [outside fd1 fd2 buffers sys_stdout sys_stderr pipelines log] in E.
  unfold bind at 1 in E. rewrite shim_run in E.
  unfold helper_run.
  destruct (KPipeline (VStr lang_code) e) as [[e1 ws1] [ex | h]].
  - subst res. eexists. split.
    + apply captured_text, (capture_text 0 1 ws1), two_buffers_text.
    + repeat split.
  - destruct (call_pipeline h (VStr text) (VStr voice) 1 "\n+" e1)
      as [[[e2 ws2] segs] [ex |]].
    + subst res. eexists. split.
      * apply captured_text, (capture_text 0 1 ws2), (capture_text 0 1 ws1), two_buffers_text.
      * destruct segs; repeat split.
    + destruct segs as [| seg segs].
      * subst res. eexists. split.
        -- apply captured_text, (capture_text 0 1 ws2), (capture_text 0 1 ws1),
             two_buffers_text.
        -- repeat split.
      * unfold bind at 1, write_wav in E. cbn [after_shim outside] in E.
        destruct (sf_write (VStr output_path) (List.concat (seg :: segs)) 24000 e2)
          as [e3 [ex |]].
        -- subst res. eexists. split.
           ++ apply captured_text, (capture_text 0 1 ws2), (capture_text 0 1 ws1),
                two_buffers_text.
           ++ repeat split.
        -- subst res. eexists. split.
           ++ apply captured_text, (capture_text 0 1 ws2), (capture_text 0 1 ws1),
                two_buffers_text.
           ++ repeat split.
Qed.

End HelperPaths.

(** ** The command loop, line by line *)

Section Loop.
Context {X : External}.

Lemma body_blank line w :
  strip line = "" -> Server.body line w = (w, inr Server.Next).
Proof. intros E. unfold Server.body. rewrite E. reflexivity. Qed.

Lemma body_invalid line w :
  strip line <> "" -> json_loads (strip line) = None ->
  Server.body line w = (write_stdout (Json (failure "Invalid JSON")) w, inr Server.Next).
Proof.
  intros Hs Hj. unfold Server.body.
  apply String.eqb_neq in Hs. rewrite Hs, Hj. reflexivity.
Qed.

(** A document that is not an object: [command.get] raises. *)
Lemma body_not_object line v w :
  strip line <> "" -> json_loads (strip line) = Some v -> (forall d, v <> VDict d) ->
  Server.body line w =
  (w, inl (Exception (Exn "AttributeError"
                          ("'" ++ type_name v ++ "' object has no attribute 'get'")))).
Proof.
  intros Hs Hj Hv. unfold Server.body.
  apply String.eqb_neq in Hs. rewrite Hs, Hj.
  destruct v; try reflexivity. elim (Hv d). reflexivity.
Qed.

(** The exception leaves the [for]; the handler around it writes the error on
    stderr and [main] returns: the lines that follow are not read. *)
Lemma main_not_object line rest v w :
  strip line <> "" -> json_loads (strip line) = Some v -> (forall d, v <> VDict d) ->
  Server.main (line :: rest) w =
  (write_stderr
     (Json (failure ("'" ++ type_name v ++ "' object has no attribute 'get'"))) w,
   inr tt).
Proof.
  intros Hs Hj Hv. unfold Server.main, try_except. simpl.
  unfold bind. rewrite (body_not_object line v w Hs Hj Hv). reflexivity.
Qed.

Lemma body_object line d w :
  request line d ->
  Server.body line w =
  (if eq_str (dict_get d "action") "generate" then
     if negb (all [dict_get d "text"; dict_get d "voice"; dict_get d "lang_code";
                   dict_get d "output_path"]) then
       print_json (failure "Missing required parameters") ;; ret Server.Next
     else
       result <- Server.generate_audio (dict_get d "text") (dict_get d "voice")
                   (dict_get d "lang_code") (dict_get d "output_path") ;;
       print_json result ;;
       ret Server.Next
   else if eq_str (dict_get d "action") "ping" then
     print_json pong ;; ret Server.Next
   else if eq_str (dict_get d "action") "exit" then ret Server.Break
   else print_json (failure "Unknown action") ;; ret Server.Next) w.
Proof.
  intros (Hs & Hj). unfold Server.body.
  apply String.eqb_neq in Hs. rewrite Hs, Hj.
  reflexivity.
Qed.



Lemma for_lines_exit pre line post d w :
  request line d -> dict_get d "action" = VStr "exit" ->
  Server.for_lines (pre ++ line :: post) w = Server.for_lines pre w.
Proof.
  intros Hr Ha. revert w.
  induction pre as [| l pre IH]; intros w.
  - cbn [app Server.for_lines]. unfold bind.
    rewrite (body_object line d w Hr), Ha. reflexivity.
  - cbn [app Server.for_lines]. unfold bind.
    destruct (Server.body l w) as [w' [r | [|]]]; [reflexivity | apply IH | reflexivity].
Qed.

(** C9: the request with action exit is not answered (the state of the process
    after it is the state before it), and the loop ends there: the input that
    follows it changes nothing of what the process does. *)
Theorem exit_stops_loop pre line post d :
  request line d ->
  dict_get d "action" = VStr "exit" ->
  (forall w, Server.body line w = (w, inr Server.Break)) /\
  (forall w, Server.main (pre ++ line :: post) w = Server.main pre w) /\
  (forall installed e,
      Server.script installed (pre ++ line :: post) e = Server.script installed pre e).
Proof.
  intros Hr Ha.
  assert (Hmain : forall w, Server.main (pre ++ line :: post) w = Server.main pre w).
  { intros w. unfold Server.main, try_except.
    rewrite (for_lines_exit pre line post d w Hr Ha). reflexivity. }
  split; [| split].
  - intros w. rewrite (body_object line d w Hr), Ha. reflexivity.
  - exact Hmain.
  - intros [|] e; unfold Server.script; [rewrite Hmain |]; reflexivity.
Qed.

End Loop.

(** The exit request between two pings: the first ping is answered, the exit
    and the second ping are not. *)
Lemma exit_stops_loop_witness :
  (forall w, @Server.body Fake.quiet Fake.exit_line w = (w, inr Server.Break)) /\
  (forall w, @Server.main Fake.quiet ([Fake.ping_line] ++ Fake.exit_line :: [Fake.ping_line]) w
             = Server.main [Fake.ping_line] w) /\
  (forall installed e,
      @Server.script Fake.quiet installed
        ([Fake.ping_line] ++ Fake.exit_line :: [Fake.ping_line]) e
      = Server.script installed [Fake.ping_line] e).
Proof.
  apply (@exit_stops_loop Fake.quiet [Fake.ping_line] Fake.exit_line [Fake.ping_line]
           [("action", VStr "exit")]).
  - split; [vm_compute; discriminate | vm_compute; reflexivity].
  - reflexivity.
Defined.


(** ** The pipeline cache and the synthesis adapter *)

Section Adapter.
Context {X : External}.

(** The four ways of [get_pipeline]: a key that cannot be hashed, a key in the
    cache, and a key that is not, with a constructor that raises or returns. *)
Lemma get_pipeline_unhashable k w :
  hashable k = false ->
  Server.get_pipeline k w =
  (w, inl (Exception (Exn "TypeError" ("unhashable type: '" ++ type_name k ++ "'")))).
Proof. intros H. unfold Server.get_pipeline. rewrite H. reflexivity. Qed.

Lemma get_pipeline_cached k h w :
  hashable k = true -> Server.lookup k (pipelines w) = Some h ->
  Server.get_pipeline k w = (w, inr h).
Proof.
  intros H E. unfold Server.get_pipeline. rewrite H.
  unfold bind, gets. cbn [negb]. rewrite E. reflexivity.
Qed.

Lemma get_pipeline_raises k w e ws ex :
  hashable k = true -> Server.lookup k (pipelines w) = None ->
  KPipeline k (outside w) = (e, ws, inl ex) ->
  Server.get_pipeline k w =
  (record (Constructed k (inl ex)) (emit ws (set_outside e w)), inl (Exception ex)).
Proof.
  intros H E K. unfold Server.get_pipeline. rewrite H.
  unfold bind, gets, new_pipeline. cbn [negb]. rewrite E, K. reflexivity.
Qed.

Lemma get_pipeline_constructs k w e ws h :
  hashable k = true -> Server.lookup k (pipelines w) = None ->
  KPipeline k (outside w) = (e, ws, inr h) ->
  exists w',
    Server.get_pipeline k w = (w', inr h) /\
    pipelines w' = (pipelines w ++ [(k, h)])%list /\
    log w' = (log w ++ [Constructed k (inr h)])%list /\
    outside w' = e.
Proof.
  intros H E K. unfold Server.get_pipeline. rewrite H.
  unfold bind, gets, new_pipeline, Server.store, modify. cbn [negb]. rewrite E, K.
  eexists. split; [reflexivity |].
  destruct (emit_fields ws (set_outside e w)) as (Ho & _ & _ & Hp & Hl).
  cbn [pipelines log outside set_pipelines record]. rewrite Hp, Hl, Ho.
  repeat split.
Qed.

(** [len(np.concatenate(audio_segments))] is the number of samples yielded. *)
Lemma length_concat_total (segs : list (list sample)) :
  List.length (List.concat segs) = total segs.
Proof.
  induction segs as [| seg segs IH]; [reflexivity |].
  cbn [List.concat total fold_right]. rewrite length_app, IH. reflexivity.
Qed.

Lemma run_pipeline_ends h t v sp pat w e ws segs :
  call_pipeline h t v sp pat (outside w) = (e, ws, segs, None) ->
  exists w',
    run_pipeline h t v sp pat w = (w', inr segs) /\
    pipelines w' = pipelines w /\
    log w' = (log w ++ [Synthesised h t v])%list /\
    outside w' = e.
Proof.
  intros E. unfold run_pipeline. rewrite E.
  eexists. split; [reflexivity |].
  destruct (emit_fields ws (set_outside e w)) as (Ho & _ & _ & Hp & Hl).
  cbn [pipelines log outside record]. rewrite Hp, Hl, Ho. repeat split.
Qed.


(** C6, in the server: a generator that ends without a chunk gives the
    failure response "No audio generated", and the encoder is not called.
    In the helper: the same error goes to stderr, the status is 1, nothing
    goes to stdout, and the encoder is not called. *)
Theorem no_audio_generated :
  (forall text voice lang_code output_path w w1 pipeline e2 ws,
      Server.get_pipeline lang_code w = (w1, inr pipeline) ->
      call_pipeline pipeline text voice 1 "\n+" (outside w1) = (e2, ws, [], None) ->
      exists w',
        Server.generate_audio text voice lang_code output_path w =
          (w', inr [("success", VBool false); ("error", VStr "No audio generated")]) /\
        log w' = (log w1 ++ [Synthesised pipeline text voice])%list /\
        outside w' = e2) /\
  (forall a0 text voice lang_code output_path rest e e1 ws1 pipeline e2 ws2,
      KPipeline (VStr lang_code) e = (e1, ws1, inr pipeline) ->
      call_pipeline pipeline (VStr text) (VStr voice) 1 "\n+" e1 = (e2, ws2, [], None) ->
      let o := Helper.script true (a0 :: text :: voice :: lang_code :: output_path :: rest) e in
      status o = 1 /\
      fd1 (final o) = [] /\
      (exists pre, Forall is_text pre /\
                   fd2 (final o) = (pre ++ [Json (failure "No audio generated")])%list) /\
      log (final o) = [Constructed (VStr lang_code) (inr pipeline);
                       Synthesised pipeline (VStr text) (VStr voice)]).
Proof.
  split.
  - intros text voice lang_code output_path w w1 pipeline e2 ws Hget Hcall.
    destruct (run_pipeline_ends pipeline text voice 1 "\n+" w1 e2 ws [] Hcall)
      as (w2 & Hrun & _ & Hlog2 & Hout2).
    unfold Server.generate_audio, try_except, bind. rewrite Hget, Hrun.
    eexists. split; [reflexivity | split; assumption].
  - intros a0 text voice lang_code output_path rest e e1 ws1 pipeline e2 ws2 Hctor Hcall o.
    pose proof (helper_main_run a0 text voice lang_code output_path rest e) as H.
    unfold helper_run in H. rewrite Hctor, Hcall in H.
    destruct H as (pre & Hpre & Hr & H1 & H2 & Hl).
    subst o. unfold Helper.script.
    destruct (Helper.main _ (initial e)) as [w r]. cbn [fst snd] in *. subst r.
    cbn [finish status final].
    split; [reflexivity |]. split; [exact H1 |]. split; [| exact Hl].
    exists pre. split; assumption.
Qed.

End Adapter.


(** One second and a half of audio. *)
Example duration_of_36000_samples : truediv 36000 24000%float = 1.5%float.
Proof. vm_compute. reflexivity. Qed.

(** The model that yields nothing, in the server and in the helper. *)
Lemma no_audio_generated_witness :
  (let w := @initial Fake.mute tt in
   let w1 := fst (@Server.get_pipeline Fake.mute (VStr "e") w) in
   exists w',
     @Server.generate_audio Fake.mute (VStr "hola") (VStr "ef_dora") (VStr "e")
       (VStr "out.wav") w =
       (w', inr [("success", VBool false); ("error", VStr "No audio generated")]) /\
     log w' = (log w1 ++ [@Synthesised Fake.mute "pipeline-e" (VStr "hola")
                           (VStr "ef_dora")])%list /\
     outside w' = tt) /\
  (let o := @Helper.script Fake.mute true
              ["kokoro_python_helper.py"; "hola"; "ef_dora"; "e"; "out.wav"] tt in
   status o = 1 /\
   fd1 (final o) = [] /\
   (exists pre, Forall is_text pre /\
                fd2 (final o) = (pre ++ [Json (failure "No audio generated")])%list) /\
   log (final o) = [@Constructed Fake.mute (VStr "e") (inr "pipeline-e");
                    @Synthesised Fake.mute "pipeline-e" (VStr "hola") (VStr "ef_dora")]).
Proof.
  split.
  - intros w w1.
    apply (proj1 (@no_audio_generated Fake.mute) (VStr "hola") (VStr "ef_dora") (VStr "e")
             (VStr "out.wav") w w1 "pipeline-e" tt []); reflexivity.
  - apply (proj2 (@no_audio_generated Fake.mute) "kokoro_python_helper.py" "hola" "ef_dora"
             "e" "out.wav" [] tt tt [] "pipeline-e" tt []); reflexivity.
Defined.

(** ** The protocol of the cache *)

Section Cache.
Context {X : External}.

Lemma cache_step_same w w' :
  pipelines w' = pipelines w -> log w' = log w -> cache_step w w'.
Proof.
  intros Hp Hl. apply cache_keep with (evs := []); [exact Hp | | constructor].
  rewrite app_nil_r. exact Hl.
Qed.

Lemma cache_step_get_pipeline k w : cache_step w (fst (Server.get_pipeline k w)).
Proof.
  destruct (hashable k) eqn:Hk.
  2:{ rewrite get_pipeline_unhashable by exact Hk. apply cache_step_same; reflexivity. }
  destruct (Server.lookup k (pipelines w)) as [h |] eqn:El.
  { rewrite (get_pipeline_cached k h) by assumption. apply cache_step_same; reflexivity. }
  destruct (KPipeline k (outside w)) as [[e ws] [ex | h]] eqn:EK.
  - rewrite (get_pipeline_raises k w e ws ex) by assumption.
    destruct (emit_fields ws (set_outside e w)) as (_ & _ & _ & Hp & Hl).
    apply cache_fail with (k := k) (ex := ex); [exact El | |];
      cbn [fst pipelines log record]; [rewrite Hp | rewrite Hl]; reflexivity.
  - destruct (get_pipeline_constructs k w e ws h Hk El EK) as (w' & -> & Hp & Hl & _).
    apply cache_store with (k := k) (h := h); assumption.
Qed.

Lemma cache_step_run_pipeline h t v sp pat w :
  cache_step w (fst (run_pipeline h t v sp pat w)).
Proof.
  rewrite run_pipeline_world.
  match goal with |- context [emit ?ws ?w0] =>
    destruct (emit_fields ws w0) as (_ & _ & _ & Hp & Hl) end.
  apply cache_keep with (evs := [Synthesised h t v]);
    cbn [pipelines log record]; [rewrite Hp | rewrite Hl |]; try reflexivity.
  repeat constructor.
Qed.

Lemma cache_step_write_wav f d r w : cache_step w (fst (write_wav f d r w)).
Proof.
  rewrite write_wav_world.
  apply cache_keep with (evs := [Written f d r (snd (sf_write f d r (outside w)))]);
    try reflexivity.
  repeat constructor.
Qed.

Lemma cache_step_write s i w : cache_step w (write_to s i w).
Proof.
  pose proof (write_to_rest s i w) as E. unfold rest_of in E. inversion E.
  apply cache_step_same; assumption.
Qed.

(** The command loop is a run of the protocol. *)
Lemma cache_run_main stdin w : cache_run w (fst (Server.main stdin w)).
Proof.
  apply (inv_main (cache_run w)); try apply run_start.
  - intros d _ w1 H1. eapply run_step; [exact H1 | apply cache_step_write].
  - intros d _ w1 H1. eapply run_step; [exact H1 | apply cache_step_write].
  - intros k w1 H1. eapply run_step; [exact H1 | apply cache_step_get_pipeline].
  - intros h t v sp pat w1 H1. eapply run_step; [exact H1 | apply cache_step_run_pipeline].
  - intros f d r w1 H1. eapply run_step; [exact H1 | apply cache_step_write_wav].
Qed.

(** *** Lists and counts *)

Lemma split_app {A} (l evs l1 l2 : list A) c :
  (l ++ evs = l1 ++ c :: l2)%list ->
  (exists l2', l = l1 ++ c :: l2' /\ l2 = l2' ++ evs)%list \/
  (exists m, l1 = l ++ m /\ evs = m ++ c :: l2)%list.
Proof.
  intros E. apply app_eq_app in E. destruct E as (m & [[E1 E2] | [E1 E2]]).
  - destruct m as [| c' m].
    + right. exists []. rewrite app_nil_r in E1. cbn in E2. subst.
      rewrite app_nil_r. split; reflexivity.
    + left. cbn in E2. inversion E2; subst. exists m. split; reflexivity.
  - right. exists m. split; assumption.
Qed.

Lemma attempts_app s l l' : attempts s (l ++ l') = (attempts s l + attempts s l')%nat.
Proof. unfold attempts. rewrite filter_app, length_app. reflexivity. Qed.

Lemma successes_app s l l' : successes s (l ++ l') = (successes s l + successes s l')%nat.
Proof. unfold successes. rewrite filter_app, length_app. reflexivity. Qed.

Lemma attempts_others s evs :
  Forall (fun ev => is_constructed ev = false) evs -> attempts s evs = 0%nat.
Proof.
  induction 1 as [| ev evs Hev _ IH]; [reflexivity |].
  unfold attempts in *. cbn [filter].
  destruct ev; try discriminate; exact IH.
Qed.

Lemma successes_others s evs :
  Forall (fun ev => is_constructed ev = false) evs -> successes s evs = 0%nat.
Proof.
  induction 1 as [| ev evs Hev _ IH]; [reflexivity |].
  unfold successes in *. cbn [filter].
  destruct ev; try discriminate; exact IH.
Qed.

Lemma is_attempt_key s k r : is_attempt s (Constructed k r) = true -> k = VStr s.
Proof.
  destruct k; cbn; try discriminate.
  intros E. apply String.eqb_eq in E. subst. reflexivity.
Qed.

Lemma is_success_event s ev :
  is_success s ev = true -> exists h, ev = Constructed (VStr s) (inr h).
Proof.
  destruct ev as [k r | |]; [destruct k; destruct r as [ex | h] | |];
    cbn; try discriminate.
  intros E. apply String.eqb_eq in E. subst. exists h. reflexivity.
Qed.

Lemma lookup_app_some k p q h :
  Server.lookup k p = Some h -> Server.lookup k (p ++ q) = Some h.
Proof.
  induction p as [| [k' h'] p IH]; [discriminate |].
  cbn. destruct (key_eq k' k); [auto | exact IH].
Qed.

Lemma lookup_app_none k p q :
  Server.lookup k p = None -> Server.lookup k (p ++ q) = Server.lookup k q.
Proof.
  induction p as [| [k' h'] p IH]; [reflexivity |].
  cbn. destruct (key_eq k' k); [discriminate | exact IH].
Qed.

Lemma lookup_stored s h p :
  Server.lookup (VStr s) p = None ->
  Server.lookup (VStr s) (p ++ [(VStr s, h)]) = Some h.
Proof.
  intros E. rewrite lookup_app_none by exact E.
  cbn. rewrite String.eqb_refl. reflexivity.
Qed.

(** *** The invariants of a run *)

Lemma all_constructed_step w w' : cache_step w w' -> all_constructed w -> all_constructed w'.
Proof.
  intros Hs Hw k h Hin.
  destruct Hs as [w w' evs Hp Hl _ | w w' k0 ex _ Hp Hl | w w' k0 h0 _ Hp Hl];
    rewrite Hl; rewrite Hp in Hin; apply in_or_app.
  - left. apply Hw, Hin.
  - left. apply Hw, Hin.
  - apply in_app_or in Hin. destruct Hin as [Hin | [E | []]].
    + left. apply Hw, Hin.
    + right. inversion E; subst. left. reflexivity.
Qed.

Lemma settled_step s w w' : cache_step w w' -> settled s w -> settled s w'.
Proof.
  intros Hs Hw l1 h l2 E.
  destruct Hs as [w w' evs Hp Hl Hevs | w w' k ex Hk Hp Hl | w w' k h0 Hk Hp Hl];
    rewrite Hl in E; apply split_app in E;
    destruct E as [(l2' & E1 & E2) | (m & E1 & E2)].
  - destruct (Hw _ _ _ E1) as (Ha & Hc). subst l2.
    rewrite attempts_app, Ha, (attempts_others s evs Hevs), Hp. auto.
  - exfalso. rewrite Forall_forall in Hevs.
    assert (Hin : In (Constructed (VStr s) (inr h)) evs)
      by (rewrite E2; apply in_or_app; right; left; reflexivity).
    specialize (Hevs _ Hin). discriminate.
  - destruct (Hw _ _ _ E1) as (Ha & Hc). subst l2.
    rewrite attempts_app, Ha, Hp. split; [| exact Hc].
    unfold attempts. cbn [filter].
    destruct (is_attempt s (Constructed k (inl ex))) eqn:Ek; [| reflexivity].
    apply is_attempt_key in Ek. subst k. congruence.
  - destruct m as [| c m]; cbn in E2; inversion E2; subst.
    destruct m; discriminate.
  - destruct (Hw _ _ _ E1) as (Ha & Hc). subst l2.
    rewrite attempts_app, Ha, Hp. split; [| apply lookup_app_some, Hc].
    unfold attempts. cbn [filter].
    destruct (is_attempt s (Constructed k (inr h0))) eqn:Ek; [| reflexivity].
    apply is_attempt_key in Ek. subst k. congruence.
  - destruct m as [| c m]; cbn in E2; inversion E2; subst.
    + split; [reflexivity |]. rewrite Hp. apply lookup_stored, Hk.
    + destruct m; discriminate.
Qed.

Lemma successes_settled s w :
  settled s w -> Server.lookup (VStr s) (pipelines w) = None -> successes s (log w) = 0%nat.
Proof.
  intros Hw Hk. unfold successes.
  destruct (filter (is_success s) (log w)) as [| ev evs] eqn:E; [reflexivity |].
  exfalso.
  assert (Hin : In ev (filter (is_success s) (log w))) by (rewrite E; left; reflexivity).
  apply filter_In in Hin. destruct Hin as (Hin & Hs).
  apply is_success_event in Hs. destruct Hs as (h & ->).
  apply in_split in Hin. destruct Hin as (l1 & l2 & El).
  destruct (Hw _ _ _ El) as (_ & Hc). congruence.
Qed.

Lemma successes_step s w w' :
  cache_step w w' -> settled s w -> (successes s (log w) <= 1)%nat ->
  (successes s (log w') <= 1)%nat.
Proof.
  intros Hs Hw Hn.
  destruct Hs as [w w' evs Hp Hl Hevs | w w' k ex Hk Hp Hl | w w' k h0 Hk Hp Hl];
    rewrite Hl, successes_app.
  - rewrite (successes_others s evs Hevs). lia.
  - unfold successes at 2. cbn [filter is_success].
    destruct k; cbn [List.length]; lia.
  - unfold successes at 2. cbn [filter].
    destruct (is_success s (Constructed k (inr h0))) eqn:Ek; cbn [List.length]; [| lia].
    apply is_success_event in Ek. destruct Ek as (h & Ek). inversion Ek; subst.
    rewrite (successes_settled s w Hw Hk). lia.
Qed.

Lemma cache_run_invariants s w w' :
  cache_run w w' ->
  all_constructed w /\ settled s w /\ (successes s (log w) <= 1)%nat ->
  all_constructed w' /\ settled s w' /\ (successes s (log w') <= 1)%nat.
Proof.
  induction 1 as [| w1 w2 _ IH Hstep]; intros H0; [exact H0 |].
  destruct (IH H0) as (H1 & H2 & H3).
  split; [| split].
  - eapply all_constructed_step; eassumption.
  - eapply settled_step; eassumption.
  - eapply successes_step; eassumption.
Qed.

Lemma initial_invariants s e :
  all_constructed (initial e) /\ settled s (initial e) /\
  (successes s (log (initial e)) <= 1)%nat.
Proof.
  split; [| split].
  - intros k h [].
  - intros l1 h l2 E. destruct l1; discriminate.
  - cbn. lia.
Qed.

Lemma finish_rest A (r : world * (raised + A)) :
  rest_of (final (finish r)) = rest_of (fst r).
Proof.
  destruct r as [w [[ex | c] | a]]; cbn [finish final fst]; try reflexivity.
  apply write_to_rest.
Qed.

Lemma finish_fields A (r : world * (raised + A)) :
  pipelines (final (finish r)) = pipelines (fst r) /\ log (final (finish r)) = log (fst r).
Proof.
  pose proof (finish_rest A r) as E. unfold rest_of in E. inversion E. split; reflexivity.
Qed.

Lemma server_script_invariants s installed stdin e :
  let w := final (Server.script installed stdin e) in
  all_constructed w /\ settled s w /\ (successes s (log w) <= 1)%nat.
Proof.
  intros w.
  assert (H : exists w0, pipelines w = pipelines w0 /\ log w = log w0 /\
                         all_constructed w0 /\ settled s w0 /\
                         (successes s (log w0) <= 1)%nat).
  { subst w. unfold Server.script.
    match goal with |- context [finish ?r] =>
      destruct (finish_fields _ r) as (Hp & Hl); exists (fst r) end.
    split; [exact Hp |]. split; [exact Hl |].
    destruct installed.
    - apply (cache_run_invariants s (initial e)); [apply cache_run_main |].
      apply initial_invariants.
    - apply initial_invariants. }
  destruct H as (w0 & Hp & Hl & H1 & H2 & H3).
  unfold all_constructed, settled. rewrite Hp, Hl. auto.
Qed.

End Cache.

(** ** Construction, once and again *)

Section Construction.
Context {X : External}.

(** C2, as the code has it: for every input of the server and every code, the
    constructor returns a handle for the code at most once; from then on the
    handle is in the cache and the constructor is not called for the code
    again; a get for a code that is not in the cache stores the handle the
    constructor returns, and a get for a code in the cache returns the
    stored handle and changes nothing. (A call of the constructor that
    raises stores nothing, and does not count.) *)
Theorem construct_once installed stdin e s :
  let w := final (Server.script installed stdin e) in
  (successes s (log w) <= 1)%nat /\
  (forall l1 h l2,
      log w = (l1 ++ Constructed (VStr s) (inr h) :: l2)%list ->
      attempts s l2 = 0%nat /\ Server.lookup (VStr s) (pipelines w) = Some h) /\
  (forall w0 e1 ws h,
      Server.lookup (VStr s) (pipelines w0) = None ->
      KPipeline (VStr s) (outside w0) = (e1, ws, inr h) ->
      exists w1,
        Server.get_pipeline (VStr s) w0 = (w1, inr h) /\
        Server.lookup (VStr s) (pipelines w1) = Some h) /\
  (forall w0 h,
      Server.lookup (VStr s) (pipelines w0) = Some h ->
      Server.get_pipeline (VStr s) w0 = (w0, inr h)).
Proof.
  intros w.
  destruct (server_script_invariants s installed stdin e) as (_ & H2 & H3).
  split; [exact H3 |]. split; [exact H2 |]. split.
  - intros w0 e1 ws h Hc HK.
    destruct (get_pipeline_constructs (VStr s) w0 e1 ws h eq_refl Hc HK)
      as (w1 & Hg & Hp & _).
    exists w1. split; [exact Hg |]. rewrite Hp. apply lookup_stored, Hc.
  - intros w0 h Hc. apply get_pipeline_cached; [reflexivity | exact Hc].
Qed.

(** A generate request for a code that is not in the cache calls the
    constructor. *)
Lemma generate_audio_constructs text voice k output_path w :
  hashable k = true -> Server.lookup k (pipelines w) = None ->
  exists rest,
    log (fst (Server.generate_audio text voice k output_path w)) =
    (log w ++ Constructed k (snd (KPipeline k (outside w))) :: rest)%list.
Proof.
  intros Hk Hl.
  destruct (KPipeline k (outside w)) as [[e ws] [ex | h]] eqn:EK; cbn [snd].
  - exists []. unfold Server.generate_audio, try_except, bind.
    rewrite (get_pipeline_raises k w e ws ex Hk Hl EK).
    destruct (emit_fields ws (set_outside e w)) as (_ & _ & _ & _ & El).
    cbn [fst ret log record]. rewrite El. reflexivity.
  - destruct (get_pipeline_constructs k w e ws h Hk Hl EK) as (w1 & Hg & _ & Hl1 & _).
    unfold Server.generate_audio, try_except, bind. rewrite Hg.
    pose proof (run_pipeline_world h text voice 1 "\n+" w1) as Hr.
    destruct (run_pipeline h text voice 1 "\n+" w1) as [w2 [[ex | c] | segs]];
      cbn [fst] in Hr;
      match type of Hr with _ = record _ (emit ?ws0 ?w0) =>
        destruct (emit_fields ws0 w0) as (_ & _ & _ & _ & El) end.
    + exists [Synthesised h text voice]. cbn [fst ret]. rewrite Hr.
      cbn [log record]. rewrite El. cbn [log set_outside]. rewrite Hl1, <- app_assoc.
      reflexivity.
    + exists [Synthesised h text voice]. cbn [fst]. rewrite Hr.
      cbn [log record]. rewrite El. cbn [log set_outside]. rewrite Hl1, <- app_assoc.
      reflexivity.
    + assert (Hl2 : log w2 = (log w ++ [Constructed k (inr h); Synthesised h text voice])%list).
      { rewrite Hr. cbn [log record]. rewrite El. cbn [log set_outside].
        rewrite Hl1, <- app_assoc. reflexivity. }
      destruct segs as [| seg segs].
      * exists [Synthesised h text voice]. cbn [fst ret]. exact Hl2.
      * pose proof (write_wav_world output_path (List.concat (seg :: segs)) 24000 w2) as Hw.
        destruct (write_wav output_path (List.concat (seg :: segs)) 24000 w2)
          as [w3 [[ex | c] | u]]; cbn [fst] in Hw; eexists; cbn [fst ret]; rewrite Hw;
          cbn [log record set_outside]; rewrite Hl2, <- app_assoc; reflexivity.
Qed.

(** C10: when the constructor raises for a code that is not in the cache, the
    generate request gets the failure response with the message of the
    exception, the cache is as it was, and the next generate request for the
    code calls the constructor again; and whatever is in the cache of the
    server was returned by the constructor. *)
Theorem failed_construction_not_cached :
  (forall text voice k output_path w e1 ws ex,
      hashable k = true ->
      Server.lookup k (pipelines w) = None ->
      KPipeline k (outside w) = (e1, ws, inl ex) ->
      exists w1,
        Server.generate_audio text voice k output_path w =
          (w1, inr [("success", VBool false); ("error", VStr (str ex))]) /\
        pipelines w1 = pipelines w /\
        log w1 = (log w ++ [Constructed k (inl ex)])%list /\
        forall text' voice' output_path',
        exists rest,
          log (fst (Server.generate_audio text' voice' k output_path' w1)) =
          (log w1 ++ Constructed k (snd (KPipeline k (outside w1))) :: rest)%list) /\
  (forall installed stdin e k h,
      In (k, h) (pipelines (final (Server.script installed stdin e))) ->
      In (Constructed k (inr h)) (log (final (Server.script installed stdin e)))).
Proof.
  split.
  - intros text voice k output_path w e1 ws ex Hk Hl EK.
    destruct (emit_fields ws (set_outside e1 w)) as (_ & _ & _ & Ep & El).
    eexists. split; [| split; [| split]].
    + unfold Server.generate_audio, try_except, bind.
      rewrite (get_pipeline_raises k w e1 ws ex Hk Hl EK). reflexivity.
    + cbn [pipelines record]. exact Ep.
    + cbn [log record]. rewrite El. reflexivity.
    + intros text' voice' output_path'.
      apply generate_audio_constructs; [exact Hk |].
      cbn [pipelines record]. rewrite Ep. exact Hl.
  - intros installed stdin e k h.
    destruct (server_script_invariants "" installed stdin e) as (H1 & _).
    apply H1.
Qed.

End Construction.

(** Two requests for the code e, answered by one construction. *)
Lemma construct_once_witness :
  let w := final (@Server.script Fake.quiet true
                    [Fake.generate_line "e"; Fake.generate_line "e"] tt) in
  (successes "e" (log w) <= 1)%nat /\
  (attempts "e" [@Synthesised Fake.quiet "pipeline-e" (VStr "hola") (VStr "ef_dora");
                 @Written Fake.quiet (VStr "out.wav") [10; 20; 30] 24000 None;
                 @Synthesised Fake.quiet "pipeline-e" (VStr "hola") (VStr "ef_dora");
                 @Written Fake.quiet (VStr "out.wav") [10; 20; 30] 24000 None] = 0%nat /\
   Server.lookup (VStr "e") (pipelines w) = Some "pipeline-e") /\
  (exists w1,
      @Server.get_pipeline Fake.quiet (VStr "e") (@initial Fake.quiet tt) =
        (w1, inr "pipeline-e") /\
      Server.lookup (VStr "e") (pipelines w1) = Some "pipeline-e") /\
  @Server.get_pipeline Fake.quiet (VStr "e") w = (w, inr "pipeline-e").
Proof.
  intros w.
  destruct (@construct_once Fake.quiet true
              [Fake.generate_line "e"; Fake.generate_line "e"] tt "e")
    as (H1 & H2 & H3 & H4).
  split; [exact H1 |]. split; [| split].
  - apply (H2 [] "pipeline-e"). reflexivity.
  - apply (H3 (@initial Fake.quiet tt) tt [(Stderr, "WARNING: Defaulting repo_id" ++ nl)]);
      reflexivity.
  - apply H4. reflexivity.
Defined.

(** C2, as the claim has it, fails: with a constructor that raises, two
    requests for the code e are two calls of the constructor for e. *)
Lemma constructor_called_twice :
  ~ (attempts "e"
       (log (final (@Server.script Fake.broken true
                      [Fake.generate_line "e"; Fake.generate_line "e"] tt))) <= 1)%nat.
Proof. vm_compute. lia. Qed.

(** The factory that raises: the failure is answered, and the next request
    constructs again. *)
Lemma failed_construction_not_cached_witness :
  let w := @initial Fake.broken tt in
  let ex := Exn "RuntimeError" "model weights not found" in
  (exists w1,
      @Server.generate_audio Fake.broken (VStr "hola") (VStr "ef_dora") (VStr "e")
        (VStr "out.wav") w =
        (w1, inr [("success", VBool false); ("error", VStr "model weights not found")]) /\
      pipelines w1 = pipelines w /\
      log w1 = (log w ++ [Constructed (VStr "e") (inl ex)])%list /\
      forall text' voice' output_path',
      exists rest,
        log (fst (Server.generate_audio text' voice' (VStr "e") output_path' w1)) =
        (log w1 ++ Constructed (VStr "e") (inl ex) :: rest)%list)
  /\
  In (@Constructed Fake.quiet (VStr "e") (inr "pipeline-e"))
     (log (final (@Server.script Fake.quiet true [Fake.generate_line "e"] tt))).
Proof.
  intros w ex. split.
  - apply (proj1 (@failed_construction_not_cached Fake.broken) (VStr "hola") (VStr "ef_dora")
             (VStr "e") (VStr "out.wav") w tt [] ex); reflexivity.
  - apply (proj2 (@failed_construction_not_cached Fake.quiet) true [Fake.generate_line "e"]
             tt (VStr "e") "pipeline-e").
    simpl. left. reflexivity.
Defined.

(** ** The helper as a process *)

Section HelperProcess.
Context {X : External}.

(** Fewer than three arguments after the name of the script: the usage line,
    in plain text, and status 1. *)
Lemma helper_usage argv e :
  (List.length argv < 4)%nat ->
  Helper.main argv (initial e) =
  (write_stderr (Text (Helper.usage ++ nl)) (initial e), inl (SystemExit 1)).
Proof.
  intros H. unfold Helper.main. apply Nat.ltb_lt in H. rewrite H. reflexivity.
Qed.

(** Exactly three: the test on the length lets them through, and
    [sys.argv[4]] raises before the [try]. *)
Lemma helper_three_arguments a0 a1 a2 a3 e :
  Helper.script true [a0; a1; a2; a3] e =
  mkOutcome (write_stderr (Traceback (Exn "IndexError" "list index out of range")) (initial e))
            1.
Proof. reflexivity. Qed.

(** With four arguments or more, by the paths of [helper_run]: the status and
    the two streams. *)
Lemma helper_outcome a0 text voice lang_code output_path rest e :
  let o := Helper.script true (a0 :: text :: voice :: lang_code :: output_path :: rest) e in
  (status o = 1 /\ fd1 (final o) = [] /\
   exists pre msg, Forall is_text pre /\ fd2 (final o) = (pre ++ [Json (failure msg)])%list) \/
  (status o = 0 /\ exists f, fd1 (final o) = [Json (generated (VStr output_path) f)]).
Proof.
  intros o. subst o. unfold Helper.script.
  pose proof (helper_main_run a0 text voice lang_code output_path rest e) as H.
  destruct (Helper.main _ (initial e)) as [w r]. cbn [fst snd] in H.
  destruct H as (pre & Hpre & H).
  destruct (KPipeline (VStr lang_code) e) as [[e1 ws1] [ex | h]].
  - destruct H as (-> & H1 & H2 & _). left. cbn [finish status final]. eauto 8.
  - destruct (call_pipeline h (VStr text) (VStr voice) 1 "\n+" e1)
      as [[[e2 ws2] segs] stop].
    destruct segs as [| seg segs]; destruct stop as [ex |].
    + destruct H as (-> & H1 & H2 & _). left. cbn [finish status final]. eauto 8.
    + destruct H as (-> & H1 & H2 & _). left. cbn [finish status final]. eauto 8.
    + destruct H as (-> & H1 & H2 & _). left. cbn [finish status final]. eauto 8.
    + destruct (sf_write (VStr output_path) (List.concat (seg :: segs)) 24000 e2)
        as [e3 [ex |]].
      * destruct H as (-> & H1 & H2 & _). left. cbn [finish status final]. eauto 8.
      * destruct H as (-> & H1 & H2 & _). right. cbn [finish status final]. eauto.
Qed.


(** What holds of the standard output. In the helper, whatever the framework
    writes to [sys.stdout] and [sys.stderr] while the pipeline is built and
    run, the standard output of the process is empty or holds the one line of
    the success response. In the server, the standard output holds JSON lines
    only as long as the framework writes to stderr alone. *)
Theorem primary_channel :
  (forall installed argv e,
      (status (Helper.script installed argv e) = 1 /\
       fd1 (final (Helper.script installed argv e)) = []) \/
      (status (Helper.script installed argv e) = 0 /\
       exists p f, fd1 (final (Helper.script installed argv e)) = [Json (generated p f)])) /\
  (stdout_silent ->
   forall installed stdin e, Forall is_json (fd1 (final (Server.script installed stdin e)))).
Proof.
  split.
  - intros [|] argv e; [| left; split; reflexivity].
    destruct argv as [| a0 [| text [| voice [| lang_code [| output_path rest]]]]];
      try (left; split; reflexivity).
    destruct (helper_outcome a0 text voice lang_code output_path rest e)
      as [(Hs & H1 & _) | (Hs & f & H1)]; [left; auto | right; eauto].
  - intros Hs installed stdin e. apply server_stdout_json, Hs.
Qed.

End HelperProcess.



(** With a framework that keeps to stderr, the server's output is JSON. *)
Lemma primary_channel_witness :
  Forall is_json
    (fd1 (final (@Server.script Fake.quiet true
                   [Fake.generate_line "e"; Fake.garbage_line; Fake.ping_line] tt))).
Proof.
  apply (proj2 (@primary_channel Fake.quiet)).
  split; intros; simpl; repeat constructor.
Defined.

(** ** A document that is not an object *)

(** C1: the line [42] is a JSON document and not an object. The loop ends on
    it: the error goes to stderr, not to stdout, and the ping that follows is
    not answered. A line that is not JSON at all is answered, and so is the
    ping after it. *)
Theorem non_object_request_ends_loop :
  let o := @Server.script Fake.quiet true [Fake.number_line; Fake.ping_line] tt in
  let o' := @Server.script Fake.quiet true [Fake.garbage_line; Fake.ping_line] tt in
  fd1 (final o) = [] /\
  fd2 (final o) = [Json (failure "'int' object has no attribute 'get'")] /\
  status o = 0 /\
  fd1 (final o') = [Json (failure "Invalid JSON"); Json pong].
Proof. repeat split. Qed.

(** ** More of the command loop *)

Section LoopMore.
Context {X : External}.

Lemma lstrip_all_space s : all_space s = true -> lstrip s = "".
Proof.
  induction s as [| c s IH]; [reflexivity |].
  cbn. destruct (isspace c); [exact IH | discriminate].
Qed.

Lemma all_space_lstrip s : all_space (lstrip s) = true -> all_space s = true.
Proof.
  induction s as [| c s IH]; [reflexivity |].
  cbn. destruct (isspace c) eqn:Ec; [exact IH |].
  cbn. rewrite Ec. discriminate.
Qed.

Lemma rstrip_empty s : rstrip s = "" -> all_space s = true.
Proof.
  induction s as [| c s IH]; [reflexivity |].
  cbn. destruct (rstrip s) as [| c' r]; [| discriminate].
  destruct (isspace c); [intros _; apply IH; reflexivity | discriminate].
Qed.

Lemma strip_empty s : strip s = "" <-> all_space s = true.
Proof.
  unfold strip. split.
  - intros E. apply all_space_lstrip, rstrip_empty, E.
  - intros E. rewrite (lstrip_all_space s E). reflexivity.
Qed.





(** X5: a document that is not an object (a number, a string, a list, true,
    false, null) ends the loop: [command.get] raises AttributeError, the
    handler around the loop prints the error object on [sys.stderr], and
    [main] returns without reading the lines that follow; nothing is
    written to [sys.stdout] and the process exits with status 0. *)
Theorem non_object_document line rest v :
  strip line <> "" ->
  json_loads (strip line) = Some v ->
  (forall d, v <> VDict d) ->
  (forall w,
      Server.main (line :: rest) w =
      (write_stderr
         (Json (failure ("'" ++ type_name v ++ "' object has no attribute 'get'"))) w,
       inr tt)) /\
  (forall e,
      Server.script true (line :: rest) e = Server.script true [line] e /\
      status (Server.script true (line :: rest) e) = 0 /\
      fd1 (final (Server.script true (line :: rest) e)) = [] /\
      fd2 (final (Server.script true (line :: rest) e)) =
      [Json (failure ("'" ++ type_name v ++ "' object has no attribute 'get'"))]).
Proof.
  intros Hs Hj Hv.
  assert (Hm : forall rest' w,
             Server.main (line :: rest') w =
             (write_stderr
                (Json (failure ("'" ++ type_name v ++ "' object has no attribute 'get'"))) w,
              inr tt)).
  { intros rest' w. apply main_not_object; assumption. }
  split; [apply Hm |].
  intros e. unfold Server.script. rewrite !Hm. repeat split.
Qed.

End LoopMore.




Lemma non_object_document_witness :
  (forall w,
      @Server.main Fake.quiet (Fake.number_line :: [Fake.ping_line]) w =
      (write_stderr (Json (failure "'int' object has no attribute 'get'")) w, inr tt)) /\
  (forall e,
      @Server.script Fake.quiet true (Fake.number_line :: [Fake.ping_line]) e =
        Server.script true [Fake.number_line] e /\
      status (@Server.script Fake.quiet true (Fake.number_line :: [Fake.ping_line]) e) = 0 /\
      fd1 (final (@Server.script Fake.quiet true (Fake.number_line :: [Fake.ping_line]) e))
        = [] /\
      fd2 (final (@Server.script Fake.quiet true (Fake.number_line :: [Fake.ping_line]) e))
        = [Json (failure "'int' object has no attribute 'get'")]).
Proof.
  apply (@non_object_document Fake.quiet Fake.number_line [Fake.ping_line] (VInt 42)).
  - vm_compute. discriminate.
  - vm_compute. reflexivity.
  - intros d. discriminate.
Defined.

(** ** More of the adapter and of the cache *)

Section AdapterMore.
Context {X : External}.

Lemma never_exits_ret A (a : A) : never_exits (ret a).
Proof. intros w c. discriminate. Qed.

Lemma never_exits_raise A e : never_exits (@raise _ A e).
Proof. intros w c. discriminate. Qed.

Lemma never_exits_modify f : never_exits (modify f).
Proof. intros w c. discriminate. Qed.

Lemma never_exits_gets A (f : world -> A) : never_exits (gets f).
Proof. intros w c. discriminate. Qed.

Lemma never_exits_bind A B (m : M A) (k : A -> M B) :
  never_exits m -> (forall a, never_exits (k a)) -> never_exits (bind m k).
Proof.
  intros Hm Hk w c. unfold bind. specialize (Hm w c).
  destruct (m w) as [w' [r | a]]; [cbn in *; congruence | apply Hk].
Qed.

Lemma never_exits_try_except A (m : M A) h :
  never_exits m -> (forall e, never_exits (h e)) -> never_exits (try_except m h).
Proof.
  intros Hm Hh w c. unfold try_except. specialize (Hm w c).
  destruct (m w) as [w' [[e | c'] | a]]; [apply Hh | exact Hm | exact Hm].
Qed.

Lemma never_exits_new_pipeline k : never_exits (new_pipeline k).
Proof.
  intros w c. unfold new_pipeline.
  destruct (KPipeline k (outside w)) as [[e ws] [ex | h]]; discriminate.
Qed.

Lemma never_exits_run_pipeline h t v sp pat : never_exits (run_pipeline h t v sp pat).
Proof.
  intros w c. unfold run_pipeline.
  destruct (call_pipeline h t v sp pat (outside w)) as [[[e ws] segs] [ex |]]; discriminate.
Qed.

Lemma never_exits_write_wav f d r : never_exits (write_wav f d r).
Proof.
  intros w c. unfold write_wav.
  destruct (sf_write f d r (outside w)) as [e [ex |]]; discriminate.
Qed.

Lemma never_exits_get_pipeline k : never_exits (Server.get_pipeline k).
Proof.
  unfold Server.get_pipeline.
  destruct (negb (hashable k)); [apply never_exits_raise |].
  apply never_exits_bind; [apply never_exits_gets | intros p].
  destruct (Server.lookup k p); [apply never_exits_ret |].
  apply never_exits_bind; [apply never_exits_new_pipeline | intros h].
  apply never_exits_bind; [apply never_exits_modify | intros _; apply never_exits_ret].
Qed.

(** X6: [generate_audio] never raises: whatever the constructor, the
    generator and the encoder do, it returns a dict, and the dict is one of
    the two responses. *)
Theorem adapter_never_raises text voice lang_code output_path w :
  exists w' d,
    Server.generate_audio text voice lang_code output_path w = (w', inr d) /\
    response d.
Proof.
  assert (Hin : never_exits
                  (pipeline <- Server.get_pipeline lang_code ;;
                   audio_segments <- run_pipeline pipeline text voice 1 "\n+" ;;
                   match audio_segments with
                   | [] => ret (failure "No audio generated")
                   | _ :: _ =>
                       write_wav output_path (List.concat audio_segments) 24000 ;;
                       ret (generated output_path
                              (truediv (Z.of_nat (List.length (List.concat audio_segments)))
                                       24000%float))
                   end)).
  { apply never_exits_bind; [apply never_exits_get_pipeline | intros h].
    apply never_exits_bind; [apply never_exits_run_pipeline | intros [| seg segs]].
    - apply never_exits_ret.
    - apply never_exits_bind; [apply never_exits_write_wav | intros _; apply never_exits_ret]. }
  pose proof (generate_audio_response text voice lang_code output_path w) as Hr.
  unfold Server.generate_audio, try_except in *.
  specialize (Hin w).
  match goal with |- context [match ?m w with _ => _ end] =>
    destruct (m w) as [w1 [[e | c] | d]] end.
  - eexists _, _. split; [reflexivity |]. eapply Hr. reflexivity.
  - elim (Hin c). reflexivity.
  - eexists _, _. split; [reflexivity |]. eapply Hr. reflexivity.
Qed.

Lemma run_pipeline_raises h t v sp pat w e ws segs ex :
  call_pipeline h t v sp pat (outside w) = (e, ws, segs, Some ex) ->
  exists w',
    run_pipeline h t v sp pat w = (w', inl (Exception ex)) /\
    pipelines w' = pipelines w /\
    log w' = (log w ++ [Synthesised h t v])%list /\
    outside w' = e.
Proof.
  intros E. unfold run_pipeline. rewrite E.
  eexists. split; [reflexivity |].
  destruct (emit_fields ws (set_outside e w)) as (Ho & _ & _ & Hp & Hl).
  cbn [pipelines log outside record]. rewrite Hp, Hl, Ho. repeat split.
Qed.

(** X7: when the generator raises, after whatever chunks it has yielded, the
    response is the failure response with the message of the exception, the
    chunks are dropped and the encoder is not called: no file is written
    with a part of the audio. *)
Theorem synthesis_failure_writes_nothing
    text voice lang_code output_path w w1 pipeline e2 ws segs ex :
  Server.get_pipeline lang_code w = (w1, inr pipeline) ->
  call_pipeline pipeline text voice 1 "\n+" (outside w1) = (e2, ws, segs, Some ex) ->
  exists w',
    Server.generate_audio text voice lang_code output_path w =
      (w', inr [("success", VBool false); ("error", VStr (str ex))]) /\
    log w' = (log w1 ++ [Synthesised pipeline text voice])%list /\
    pipelines w' = pipelines w1 /\
    outside w' = e2.
Proof.
  intros Hget Hcall.
  destruct (run_pipeline_raises pipeline text voice 1 "\n+" w1 e2 ws segs ex Hcall)
    as (w2 & Hrun & Hp & Hl & Ho).
  unfold Server.generate_audio, try_except, bind. rewrite Hget, Hrun.
  eexists. split; [reflexivity |]. auto.
Qed.

(** X8: a lang_code that is a list or a dict cannot be a key of the cache:
    the request gets a failure response, and nothing else happens: the
    constructor is not called and the state of the process is as it was. *)
Theorem unhashable_lang_code text voice lang_code output_path w :
  hashable lang_code = false ->
  exists msg,
    Server.generate_audio text voice lang_code output_path w =
    (w, inr [("success", VBool false); ("error", VStr msg)]).
Proof.
  intros H. unfold Server.generate_audio, try_except, bind.
  rewrite (get_pipeline_unhashable lang_code w H).
  eexists. reflexivity.
Qed.

Lemma run_pipeline_pipelines h t v sp pat w :
  pipelines (fst (run_pipeline h t v sp pat w)) = pipelines w.
Proof.
  rewrite run_pipeline_world. cbn [pipelines record].
  match goal with |- context [emit ?ws ?w0] =>
    destruct (emit_fields ws w0) as (_ & _ & _ & Hp & _) end.
  exact Hp.
Qed.

Lemma write_wav_pipelines f d r w : pipelines (fst (write_wav f d r w)) = pipelines w.
Proof. rewrite write_wav_world. reflexivity. Qed.

(** [generate_audio] changes the cache through [get_pipeline] only. *)
Lemma generate_audio_pipelines text voice k output_path w :
  pipelines (fst (Server.generate_audio text voice k output_path w)) =
  pipelines (fst (Server.get_pipeline k w)).
Proof.
  unfold Server.generate_audio, try_except, bind.
  destruct (Server.get_pipeline k w) as [w1 [[ex | c] | h]]; cbn [fst]; try reflexivity.
  pose proof (run_pipeline_pipelines h text voice 1 "\n+" w1) as H1.
  destruct (run_pipeline h text voice 1 "\n+" w1) as [w2 [[ex | c] | segs]];
    cbn [fst] in *; try exact H1.
  destruct segs as [| seg segs]; [exact H1 |].
  pose proof (write_wav_pipelines output_path (List.concat (seg :: segs)) 24000 w2) as H2.
  destruct (write_wav output_path (List.concat (seg :: segs)) 24000 w2)
    as [w3 [[ex | c] | u]]; cbn [fst ret] in *; congruence.
Qed.

(** X9: a pipeline that has been constructed stays in the cache when the
    request it was constructed for fails afterwards, in the generator or in
    the encoder: the next request for the code finds it. *)
Theorem pipeline_kept_after_failure text voice s output_path w e1 ws h :
  Server.lookup (VStr s) (pipelines w) = None ->
  KPipeline (VStr s) (outside w) = (e1, ws, inr h) ->
  Server.lookup (VStr s)
    (pipelines (fst (Server.generate_audio text voice (VStr s) output_path w))) = Some h.
Proof.
  intros Hl HK.
  destruct (get_pipeline_constructs (VStr s) w e1 ws h eq_refl Hl HK) as (w1 & Hg & Hp & _).
  rewrite generate_audio_pipelines, Hg. cbn [fst]. rewrite Hp.
  apply lookup_stored, Hl.
Qed.

Lemma cache_step_keeps w w' k h :
  cache_step w w' ->
  Server.lookup k (pipelines w) = Some h -> Server.lookup k (pipelines w') = Some h.
Proof.
  intros Hs Hl.
  destruct Hs as [w w' evs Hp _ _ | w w' k0 ex _ Hp _ | w w' k0 h0 _ Hp _]; rewrite Hp;
    [exact Hl | exact Hl | apply lookup_app_some, Hl].
Qed.

Lemma cache_run_keeps w w' k h :
  cache_run w w' ->
  Server.lookup k (pipelines w) = Some h -> Server.lookup k (pipelines w') = Some h.
Proof.
  induction 1 as [| w1 w2 _ IH Hstep]; intros Hl; [exact Hl |].
  eapply cache_step_keeps; [exact Hstep | apply IH, Hl].
Qed.

(** X10: the cache never loses or replaces an entry: a key that finds a
    handle before any run of the loop finds the same handle after it,
    whatever the requests and whatever fails. *)
Theorem cache_never_evicts stdin w k h :
  Server.lookup k (pipelines w) = Some h ->
  Server.lookup k (pipelines (fst (Server.main stdin w))) = Some h.
Proof. intros Hl. eapply cache_run_keeps; [apply cache_run_main | exact Hl]. Qed.

(** X11: the test before the encoder is on the list of chunks, not on the
    samples: chunks without a sample are a success, with an encoder call on
    no sample and duration 0.0. *)
Theorem empty_chunks_succeed text voice lang_code output_path w w1 pipeline e2 ws seg segs e3 :
  Server.get_pipeline lang_code w = (w1, inr pipeline) ->
  call_pipeline pipeline text voice 1 "\n+" (outside w1) = (e2, ws, seg :: segs, None) ->
  total (seg :: segs) = 0%nat ->
  sf_write output_path [] 24000 e2 = (e3, None) ->
  exists w',
    Server.generate_audio text voice lang_code output_path w =
      (w', inr [("success", VBool true); ("output_path", output_path);
                ("duration", VFloat 0%float); ("sample_rate", VInt 24000)]) /\
    log w' = (log w1 ++ [Synthesised pipeline text voice;
                         Written output_path [] 24000 None])%list.
Proof.
  intros Hget Hcall Htot Hwrite.
  assert (Hnil : List.concat (seg :: segs) = []).
  { apply length_zero_iff_nil. rewrite length_concat_total. exact Htot. }
  destruct (run_pipeline_ends pipeline text voice 1 "\n+" w1 e2 ws (seg :: segs) Hcall)
    as (w2 & Hrun & _ & Hlog2 & Hout2).
  unfold Server.generate_audio, try_except, bind. rewrite Hget, Hrun.
  unfold write_wav. rewrite Hnil, Hout2, Hwrite.
  eexists. split; [reflexivity |].
  cbn [log record set_outside]. rewrite Hlog2, <- app_assoc. reflexivity.
Qed.

End AdapterMore.

Lemma synthesis_failure_writes_nothing_witness :
  let w := @initial Fake.stuttering tt in
  let w1 := fst (@Server.get_pipeline Fake.stuttering (VStr "e") w) in
  exists w',
    @Server.generate_audio Fake.stuttering (VStr "hola") (VStr "ef_dora") (VStr "e")
      (VStr "out.wav") w =
      (w', inr [("success", VBool false); ("error", VStr "CUDA out of memory")]) /\
    log w' = (log w1 ++ [@Synthesised Fake.stuttering "pipeline-e" (VStr "hola")
                           (VStr "ef_dora")])%list /\
    pipelines w' = pipelines w1 /\
    outside w' = tt.
Proof.
  intros w w1.
  apply (@synthesis_failure_writes_nothing Fake.stuttering (VStr "hola") (VStr "ef_dora")
           (VStr "e") (VStr "out.wav") w w1 "pipeline-e" tt
           [(Stderr, "UserWarning: dropout" ++ nl)] [[10; 20]]
           (Exn "RuntimeError" "CUDA out of memory")); reflexivity.
Defined.

Lemma unhashable_lang_code_witness :
  let w := @initial Fake.quiet tt in
  exists msg,
    @Server.generate_audio Fake.quiet (VStr "hola") (VStr "ef_dora") (VList [VStr "e"])
      (VStr "out.wav") w =
    (w, inr [("success", VBool false); ("error", VStr msg)]).
Proof.
  intros w.
  apply (@unhashable_lang_code Fake.quiet (VStr "hola") (VStr "ef_dora") (VList [VStr "e"])
           (VStr "out.wav") w).
  reflexivity.
Defined.

Lemma pipeline_kept_after_failure_witness :
  Server.lookup (VStr "e")
    (pipelines (fst (@Server.generate_audio Fake.stuttering (VStr "hola") (VStr "ef_dora")
                       (VStr "e") (VStr "out.wav") (@initial Fake.stuttering tt))))
  = Some "pipeline-e".
Proof.
  apply (@pipeline_kept_after_failure Fake.stuttering (VStr "hola") (VStr "ef_dora") "e"
           (VStr "out.wav") (@initial Fake.stuttering tt) tt
           [(Stdout, "loading voices" ++ nl)] "pipeline-e"); reflexivity.
Defined.

Lemma cache_never_evicts_witness :
  let w := final (@Server.script Fake.quiet true [Fake.generate_line "e"] tt) in
  Server.lookup (VStr "e")
    (pipelines (fst (@Server.main Fake.quiet
                       [Fake.generate_line "a"; Fake.number_line; Fake.generate_line "e"] w)))
  = Some "pipeline-e".
Proof.
  intros w.
  apply (@cache_never_evicts Fake.quiet
           [Fake.generate_line "a"; Fake.number_line; Fake.generate_line "e"] w (VStr "e")
           "pipeline-e").
  reflexivity.
Defined.

Lemma empty_chunks_succeed_witness :
  let w := @initial Fake.silence tt in
  let w1 := fst (@Server.get_pipeline Fake.silence (VStr "e") w) in
  exists w',
    @Server.generate_audio Fake.silence (VStr "hola") (VStr "ef_dora") (VStr "e")
      (VStr "out.wav") w =
      (w', inr [("success", VBool true); ("output_path", VStr "out.wav");
                ("duration", VFloat 0%float); ("sample_rate", VInt 24000)]) /\
    log w' = (log w1 ++ [@Synthesised Fake.silence "pipeline-e" (VStr "hola") (VStr "ef_dora");
                         @Written Fake.silence (VStr "out.wav") [] 24000 None])%list.
Proof.
  intros w w1.
  apply (@empty_chunks_succeed Fake.silence (VStr "hola") (VStr "ef_dora") (VStr "e")
           (VStr "out.wav") w w1 "pipeline-e" tt [] [] [] tt); reflexivity.
Defined.

(** ** The server as a process *)

Section ServerProcess.
Context {X : External}.

Lemma never_exits_generate_audio text voice lang_code output_path :
  never_exits (Server.generate_audio text voice lang_code output_path).
Proof.
  unfold Server.generate_audio.
  apply never_exits_try_except; [| intros e; apply never_exits_ret].
  apply never_exits_bind; [apply never_exits_get_pipeline | intros h].
  apply never_exits_bind; [apply never_exits_run_pipeline | intros [| seg segs]].
  - apply never_exits_ret.
  - apply never_exits_bind; [apply never_exits_write_wav | intros _; apply never_exits_ret].
Qed.

Lemma never_exits_dot_get command key : never_exits (Server.dot_get command key).
Proof. destruct command; cbn; auto using never_exits_ret, never_exits_raise. Qed.

Lemma never_exits_print d : never_exits (print_json d ;; ret Server.Next).
Proof.
  apply never_exits_bind; [apply never_exits_modify | intros _; apply never_exits_ret].
Qed.

Lemma never_exits_body line : never_exits (Server.body line).
Proof.
  unfold Server.body.
  destruct (strip line =? "")%string; [apply never_exits_ret |].
  destruct (json_loads (strip line)) as [command |]; [| apply never_exits_print].
  apply never_exits_bind; [apply never_exits_dot_get | intros action].
  destruct (eq_str action "generate").
  - do 4 (apply never_exits_bind; [apply never_exits_dot_get | intros ?]).
    destruct (negb _); [apply never_exits_print |].
    apply never_exits_bind; [apply never_exits_generate_audio | intros d].
    apply never_exits_print.
  - apply never_exits_bind; [apply never_exits_dot_get | intros action'].
    destruct (eq_str action' "ping"); [apply never_exits_print |].
    apply never_exits_bind; [apply never_exits_dot_get | intros action''].
    destruct (eq_str action'' "exit"); [apply never_exits_ret | apply never_exits_print].
Qed.

Lemma never_exits_for_lines stdin : never_exits (Server.for_lines stdin).
Proof.
  induction stdin as [| line rest IH]; cbn [Server.for_lines]; [apply never_exits_ret |].
  apply never_exits_bind; [apply never_exits_body | intros [|]];
    [exact IH | apply never_exits_ret].
Qed.

Lemma main_returns stdin w : snd (Server.main stdin w) = inr tt.
Proof.
  unfold Server.main, try_except.
  pose proof (never_exits_for_lines stdin w) as H.
  destruct (Server.for_lines stdin w) as [w' [[e | c] | []]]; cbn in *.
  - reflexivity.
  - elim (H c). reflexivity.
  - reflexivity.
Qed.

Lemma server_main_no_traceback stdin : inv (everywhere no_traceback) (Server.main stdin).
Proof.
  apply inv_main.
  - intros d _. apply inv_print_everywhere. exact Logic.I.
  - intros d _. apply inv_eprint_json_everywhere. exact Logic.I.
  - intros k. apply inv_get_pipeline_everywhere. intros s. exact Logic.I.
  - intros. apply inv_run_pipeline_everywhere. intros s. exact Logic.I.
  - intros. apply inv_write_wav_everywhere.
Qed.

(** X12: once the package is imported, no input makes the server end in an
    uncaught exception: [main] returns, the exit status is 0, and the
    interpreter reports no exception on either stream. *)
Theorem server_never_crashes stdin e :
  snd (Server.main stdin (initial e)) = inr tt /\
  status (Server.script true stdin e) = 0 /\
  Forall no_traceback (fd1 (final (Server.script true stdin e))) /\
  Forall no_traceback (fd2 (final (Server.script true stdin e))).
Proof.
  pose proof (main_returns stdin (initial e)) as Hr.
  pose proof (server_main_no_traceback stdin (initial e) (initial_everywhere _ e))
    as (H1 & H2 & _).
  unfold Server.script.
  destruct (Server.main stdin (initial e)) as [w r]. cbn [fst snd] in *. subst r.
  cbn [finish status final]. auto.
Qed.

(** *** One response for each request *)

Lemma steady_ext l w w' :
  fd1 w' = fd1 w -> sys_stdout w' = sys_stdout w -> sys_stderr w' = sys_stderr w ->
  steady l w -> steady l w'.
Proof. unfold steady. intros -> -> ->. auto. Qed.

Lemma steady_emit l ws w :
  Forall (fun t => fst t = Stderr) ws -> steady l w -> steady l (emit ws w).
Proof.
  intros Hws. unfold emit. revert w.
  induction Hws as [| t ws Ht _ IH]; intros w Hw; cbn [fold_left]; [exact Hw |].
  apply IH. destruct Hw as (H1 & H2 & H3).
  unfold write. rewrite Ht. unfold write_stderr. rewrite H3.
  unfold steady; cbn. auto.
Qed.

Lemma steady_print l d w :
  steady l w -> steady (l ++ [Json d]) (write_stdout (Json d) w).
Proof.
  intros (H1 & H2 & H3). unfold write_stdout. rewrite H2.
  unfold steady; cbn. rewrite H1. auto.
Qed.

Lemma steady_generate_audio l text voice lang_code output_path :
  stdout_silent -> inv (steady l) (Server.generate_audio text voice lang_code output_path).
Proof.
  intros (Hctor & Hgen).
  apply inv_generate_audio.
  - intros k. unfold Server.get_pipeline.
    destruct (negb (hashable k)); [auto with inv |].
    apply inv_bind; [auto with inv | intros p].
    destruct (Server.lookup k p); [auto with inv |].
    apply inv_bind.
    + intros w Hw. rewrite new_pipeline_world.
      eapply steady_ext; [reflexivity | reflexivity | reflexivity |].
      apply steady_emit; [apply Hctor |].
      eapply steady_ext; [reflexivity | reflexivity | reflexivity | exact Hw].
    + intros h. apply inv_bind; [| auto with inv].
      apply inv_modify. intros w Hw. exact Hw.
  - intros h t v sp pat w Hw. rewrite run_pipeline_world.
    eapply steady_ext; [reflexivity | reflexivity | reflexivity |].
    apply steady_emit; [apply Hgen |].
    eapply steady_ext; [reflexivity | reflexivity | reflexivity | exact Hw].
  - intros f d r w Hw. rewrite write_wav_world.
    eapply steady_ext; [reflexivity | reflexivity | reflexivity | exact Hw].
Qed.

Lemma generate_audio_returns text voice lang_code output_path w :
  exists w' d, Server.generate_audio text voice lang_code output_path w = (w', inr d).
Proof.
  pose proof (never_exits_generate_audio text voice lang_code output_path w) as H.
  destruct (Server.generate_audio text voice lang_code output_path w)
    as [w' [[e | c] | d]] eqn:E.
  - exfalso. revert E. unfold Server.generate_audio, try_except.
    match goal with |- context [match ?m w with _ => _ end] =>
      destruct (m w) as [w1 [[e1 | c1] | d1]] end; discriminate.
  - elim (H c). reflexivity.
  - eauto.
Qed.

Lemma body_answers l line w :
  stdout_silent -> steady l w -> answered line ->
  exists w' d, Server.body line w = (w', inr Server.Next) /\ steady (l ++ [Json d]) w'.
Proof.
  intros Hs Hw (Hne & [Hj | (d0 & Hj & Hx)]).
  - rewrite (body_invalid line w Hne Hj). eexists _, _. split; [reflexivity |].
    apply steady_print, Hw.
  - rewrite (body_object line d0 w (conj Hne Hj)).
    destruct (eq_str (dict_get d0 "action") "generate").
    + destruct (negb _).
      * eexists _, _. split; [reflexivity | apply steady_print, Hw].
      * unfold bind.
        pose proof (steady_generate_audio l (dict_get d0 "text") (dict_get d0 "voice")
                      (dict_get d0 "lang_code") (dict_get d0 "output_path") Hs w Hw) as Hg.
        destruct (generate_audio_returns (dict_get d0 "text") (dict_get d0 "voice")
                    (dict_get d0 "lang_code") (dict_get d0 "output_path") w)
          as (w1 & d & E).
        rewrite E in *. cbn [fst] in Hg.
        eexists _, _. split; [reflexivity | apply steady_print, Hg].
    + destruct (eq_str (dict_get d0 "action") "ping").
      * eexists _, _. split; [reflexivity | apply steady_print, Hw].
      * rewrite Hx. eexists _, _. split; [reflexivity | apply steady_print, Hw].
Qed.

Lemma for_lines_answers stdin :
  stdout_silent ->
  Forall (fun line => strip line = "" \/ answered line) stdin ->
  forall l w, steady l w ->
  exists w' l',
    Server.for_lines stdin w = (w', inr tt) /\ steady (l ++ l') w' /\
    Forall is_json l' /\ List.length l' = List.length (requests stdin).
Proof.
  intros Hs Hall. induction Hall as [| line rest Hline _ IH]; intros l w Hw.
  - exists w, []. rewrite app_nil_r.
    split; [reflexivity | split; [exact Hw | split; [constructor | reflexivity]]].
  - cbn [Server.for_lines requests filter]. unfold bind.
    destruct Hline as [Hb | Ha].
    + rewrite (body_blank line w Hb), Hb. cbn [String.eqb negb]. apply IH, Hw.
    + destruct (body_answers l line w Hs Hw Ha) as (w1 & d & Hbody & H1).
      rewrite Hbody.
      destruct (IH _ _ H1) as (w' & l' & E & H2 & H3 & H4).
      exists w', (Json d :: l'). rewrite E.
      destruct Ha as (Hne & _). apply String.eqb_neq in Hne. rewrite Hne. cbn [negb].
      split; [reflexivity |]. split; [| split].
      * rewrite <- app_assoc in H2. exact H2.
      * constructor; [exact Logic.I | exact H3].
      * cbn [List.length]. fold (requests rest). rewrite H4. reflexivity.
Qed.

(** X13: when the framework keeps to stderr and the input holds no exit
    request and no document that is not an object, the standard output of the
    server holds exactly one JSON line for each line of input that is not
    blank: every request is answered, once. *)
Theorem one_response_per_request stdin e :
  stdout_silent ->
  Forall (fun line => strip line = "" \/ answered line) stdin ->
  Forall is_json (fd1 (final (Server.script true stdin e))) /\
  List.length (fd1 (final (Server.script true stdin e))) = List.length (requests stdin).
Proof.
  intros Hs Hall.
  destruct (for_lines_answers stdin Hs Hall [] (initial e)) as (w' & l' & E & H1 & H2 & H3).
  { repeat split. }
  unfold Server.script, Server.main, try_except. rewrite E. cbn [finish final].
  destruct H1 as (H1 & _). rewrite H1. cbn [app]. auto.
Qed.

End ServerProcess.

Lemma one_response_per_request_witness :
  let stdin := [Fake.ping_line; nl; Fake.garbage_line; Fake.generate_line "e";
                Fake.incomplete_line] in
  Forall is_json (fd1 (final (@Server.script Fake.quiet true stdin tt))) /\
  List.length (fd1 (final (@Server.script Fake.quiet true stdin tt))) = 4%nat.
Proof.
  intros stdin.
  apply (@one_response_per_request Fake.quiet stdin tt).
  - split; intros; simpl; repeat constructor.
  - apply Forall_cons.
    { right. split; [vm_compute; discriminate |]. right. eexists. split; reflexivity. }
    apply Forall_cons; [left; reflexivity |].
    apply Forall_cons.
    { right. split; [vm_compute; discriminate |]. left. reflexivity. }
    apply Forall_cons.
    { right. split; [vm_compute; discriminate |]. right. eexists. split; reflexivity. }
    apply Forall_cons; [| apply Forall_nil].
    right. split; [vm_compute; discriminate |]. right. eexists. split; reflexivity.
Defined.

(** ** What is written is never taken back *)

Section Growth.
Context {X : External}.

Lemma extends_refl w : extends w w.
Proof. exists [], [], []. rewrite !app_nil_r. auto. Qed.

Lemma extends_trans w1 w2 w3 : extends w1 w2 -> extends w2 w3 -> extends w1 w3.
Proof.
  intros (a1 & a2 & a3 & A1 & A2 & A3) (b1 & b2 & b3 & B1 & B2 & B3).
  exists (a1 ++ b1)%list, (a2 ++ b2)%list, (a3 ++ b3)%list.
  rewrite B1, B2, B3, A1, A2, A3, !app_assoc. auto.
Qed.

Lemma extends_same w w' :
  fd1 w' = fd1 w -> fd2 w' = fd2 w -> log w' = log w -> extends w w'.
Proof. intros E1 E2 E3. exists [], [], []. rewrite !app_nil_r. auto. Qed.

Lemma put_extends i l : exists l', put i l = (l ++ l')%list.
Proof.
  unfold put. destruct (visible i); [exists [i]; reflexivity |].
  exists []. rewrite app_nil_r. reflexivity.
Qed.

Lemma extends_write_to s i w : extends w (write_to s i w).
Proof.
  destruct s as [[|] | id]; cbn.
  - destruct (put_extends i (fd1 w)) as (l' & E).
    exists l', [], []. cbn. rewrite E, !app_nil_r. auto.
  - destruct (put_extends i (fd2 w)) as (l' & E).
    exists [], l', []. cbn. rewrite E, !app_nil_r. auto.
  - apply extends_same; reflexivity.
Qed.

Lemma extends_emit ws w : extends w (emit ws w).
Proof.
  unfold emit. revert w.
  induction ws as [| t ws IH]; intros w; cbn [fold_left]; [apply extends_refl |].
  eapply extends_trans; [| apply IH].
  unfold write, write_stdout, write_stderr. destruct (fst t); apply extends_write_to.
Qed.

Lemma extends_record ev w : extends w (record ev w).
Proof. exists [], [], [ev]. cbn. rewrite !app_nil_r. auto. Qed.

Lemma extends_call ev ws e w : extends w (record ev (emit ws (set_outside e w))).
Proof.
  eapply extends_trans; [| apply extends_record].
  eapply extends_trans; [| apply extends_emit].
  apply extends_same; reflexivity.
Qed.

Lemma inv_extends_step w0 A (m : M A) :
  (forall w, extends w (fst (m w))) -> inv (extends w0) m.
Proof. intros H w Hw. eapply extends_trans; [exact Hw | apply H]. Qed.

Lemma main_extends stdin w : extends w (fst (Server.main stdin w)).
Proof.
  apply (inv_main (extends w)); [| | | | | apply extends_refl].
  - intros d _. apply inv_extends_step. intros w1. apply extends_write_to.
  - intros d _. apply inv_extends_step. intros w1. apply extends_write_to.
  - intros k. unfold Server.get_pipeline.
    destruct (negb (hashable k)); [auto with inv |].
    apply inv_bind; [auto with inv | intros p].
    destruct (Server.lookup k p); [auto with inv |].
    apply inv_bind.
    + apply inv_extends_step. intros w1. rewrite new_pipeline_world. apply extends_call.
    + intros h. apply inv_bind; [| auto with inv].
      apply inv_extends_step. intros w1. apply extends_same; reflexivity.
  - intros h t v sp pat. apply inv_extends_step. intros w1.
    rewrite run_pipeline_world. apply extends_call.
  - intros f d r. apply inv_extends_step. intros w1.
    rewrite write_wav_world. eapply extends_trans; [| apply extends_record].
    apply extends_same; reflexivity.
Qed.

(** [main] on a first line and the rest, by the way the body ends. *)
Lemma main_cons line rest w :
  Server.main (line :: rest) w =
  match Server.body line w with
  | (w1, inr Server.Next) => Server.main rest w1
  | (w1, inr Server.Break) => (w1, inr tt)
  | (w1, inl (Exception e)) => eprint_json (failure (str e)) w1
  | (w1, inl (SystemExit c)) => (w1, inl (SystemExit c))
  end.
Proof.
  unfold Server.main, try_except. cbn [Server.for_lines]. unfold bind.
  destruct (Server.body line w) as [w1 [[e | c] | [|]]]; reflexivity.
Qed.

(** X14: what the server has written and called after an input that ends
    early is the beginning of what it writes and calls when the input goes
    on: on stdout, on stderr and in the log of the calls, more input only
    adds at the end. *)
Theorem output_grows_with_input stdin more w :
  extends (fst (Server.main stdin w)) (fst (Server.main (stdin ++ more) w)).
Proof.
  revert w. induction stdin as [| line rest IH]; intros w.
  - cbn [app]. apply main_extends.
  - cbn [app]. rewrite !main_cons.
    destruct (Server.body line w) as [w1 [[e | c] | [|]]];
      [apply extends_refl | apply extends_refl | apply IH | apply extends_refl].
Qed.

End Growth.

(** ** More of the helper *)

Section HelperMore.
Context {X : External}.

Lemma helper_main_eq a0 text voice lang_code output_path rest e :
  Helper.main (a0 :: text :: voice :: lang_code :: output_path :: rest) (initial e) =
  helper_result text voice lang_code output_path e.
Proof.
  remember (Helper.main (a0 :: text :: voice :: lang_code :: output_path :: rest) (initial e))
    as res eqn:E.
  unfold Helper.main in E.
  cbn [List.length Nat.ltb Nat.leb Helper.argv_get nth_error] in E.
  rewrite !bind_ret in E. unfold try_except in E.
  do 6 (unfold bind at 1 in E;
        cbn [gets new_StringIO modify initial set_sys_stdout set_sys_stderr
             outside fd1 fd2 buffers sys_stdout sys_stderr pipelines log app List.length]
          in E).
  unfold set_sys_stderr, set_sys_stdout in E.
  cbn [outside fd1 fd2 buffers sys_stdout sys_stderr pipelines log] in E.
  unfold bind at 1 in E.
  pose proof (shim_run (VStr text) (VStr voice) (VStr lang_code) e) as Hshim.
  unfold set_sys_stderr, set_sys_stdout in Hshim.
  rewrite Hshim in E. clear Hshim.
  unfold helper_result.
  destruct (KPipeline (VStr lang_code) e) as [[e1 ws1] [ex | h]]; [exact E |].
  destruct (call_pipeline h (VStr text) (VStr voice) 1 "\n+" e1)
    as [[[e2 ws2] segs] [ex |]]; [exact E |].
  destruct segs as [| seg segs]; [exact E |].
  unfold bind at 1, write_wav in E. cbn [after_shim outside] in E.
  cbn zeta. unfold after_shim.
  destruct (sf_write (VStr output_path) (List.concat (seg :: segs)) 24000 e2)
    as [e3 [ex |]]; exact E.
Qed.

Lemma texts_app f ws ws' : texts f (ws ++ ws') = (texts f ws ++ texts f ws')%list.
Proof. unfold texts. rewrite filter_app, map_app. reflexivity. Qed.

Lemma texts_visible f ws : Forall (fun i => visible i = true) (texts f ws).
Proof.
  unfold texts. induction ws as [| [g s] ws IH]; cbn [filter]; [constructor |].
  destruct (on_stream f (g, s)) eqn:E; [| exact IH].
  cbn [map]. constructor; [| exact IH].
  unfold on_stream in E. cbn in *. destruct f, g; try discriminate; exact E.
Qed.

Lemma capture_texts ws b0 b1 :
  capture 0 1 ws [b0; b1] = [(b0 ++ texts Stdout ws)%list; (b1 ++ texts Stderr ws)%list].
Proof.
  unfold capture. revert b0 b1.
  induction ws as [| [g s] ws IH]; intros b0 b1.
  - cbn. rewrite !app_nil_r. reflexivity.
  - cbn [fold_left fst snd]. destruct g; cbn [put_at]; rewrite IH; unfold texts, put;
      cbn [filter on_stream fst snd visible];
      destruct (negb (s =? "")%string); cbn [map]; rewrite <- ?app_assoc; reflexivity.
Qed.

Lemma replay_visible content l :
  Forall (fun i => visible i = true) content -> replay content l = (l ++ content)%list.
Proof.
  unfold replay. intros H. revert l.
  induction H as [| i content Hi _ IH]; intros l; cbn [fold_left].
  - rewrite app_nil_r. reflexivity.
  - rewrite IH. unfold put. rewrite Hi, <- app_assoc. reflexivity.
Qed.

(** After the shim, the stderr of the process holds what the framework wrote
    to [sys.stderr], and that only. *)
Lemma after_shim_fd2 e ws1 ws2 l :
  fd2 (after_shim e (capture 0 1 ws2 (capture 0 1 ws1 [[]; []])) l) =
  texts Stderr (ws1 ++ ws2).
Proof.
  unfold after_shim. cbn [fd2]. rewrite !capture_texts. cbn [nth app].
  rewrite replay_visible.
  - cbn [app]. rewrite texts_app. reflexivity.
  - rewrite <- texts_app. apply texts_visible.
Qed.

Lemma after_shim_fd2_one e ws1 l :
  fd2 (after_shim e (capture 0 1 ws1 [[]; []]) l) = texts Stderr ws1.
Proof.
  pose proof (after_shim_fd2 e ws1 [] l) as H. rewrite app_nil_r in H. exact H.
Qed.

(** X15: a run of the helper in which the pipeline is built, the generator
    ends with a chunk or more and the encoder returns: the exit status is 0,
    the standard output holds the one line of the success response, with
    the output path given and the duration N / 24000.0 for the N samples
    yielded (N rounded to the nearest double, divided by 24000.0 in IEEE
    double arithmetic), the standard error holds the text the framework wrote to
    [sys.stderr] and nothing else, and the encoder was called once, on all
    the samples in order, at rate 24000. *)
Theorem helper_success a0 text voice lang_code output_path rest e e1 ws1 h e2 ws2 seg segs e3 :
  KPipeline (VStr lang_code) e = (e1, ws1, inr h) ->
  call_pipeline h (VStr text) (VStr voice) 1 "\n+" e1 = (e2, ws2, seg :: segs, None) ->
  sf_write (VStr output_path) (List.concat (seg :: segs)) 24000 e2 = (e3, None) ->
  let o := Helper.script true (a0 :: text :: voice :: lang_code :: output_path :: rest) e in
  status o = 0 /\
  fd1 (final o) =
    [Json [("success", VBool true); ("output_path", VStr output_path);
           ("duration",
            VFloat (PrimFloat.div
                      (SF2Prim (binary_normalize 53 1024 (Z.of_nat (total (seg :: segs))) 0
                                  false))
                      24000%float));
           ("sample_rate", VInt 24000)]] /\
  fd2 (final o) = texts Stderr (ws1 ++ ws2) /\
  log (final o) = [Constructed (VStr lang_code) (inr h);
                   Synthesised h (VStr text) (VStr voice);
                   Written (VStr output_path) (List.concat (seg :: segs)) 24000 None] /\
  outside (final o) = e3.
Proof.
  intros HK Hc Hw o. subst o. unfold Helper.script.
  rewrite helper_main_eq. unfold helper_result. rewrite HK, Hc, Hw.
  cbn [finish status final]. unfold write_stdout.
  cbn [sys_stdout after_shim record set_outside write_to fd1 fd2 log outside put visible app].
  rewrite length_concat_total.
  split; [reflexivity |]. split; [reflexivity |]. split; [| split; reflexivity].
  apply (after_shim_fd2 e2 ws1 ws2 []).
Qed.


End HelperMore.

Section HelperShim.
Context {X : External}.

(** X17: on every path of a run with its four arguments, the standard error
    of the helper starts with what the framework wrote to [sys.stderr]
    while the pipeline was built and run, in the order it was written, and
    goes on with JSON only; what the framework wrote to [sys.stdout] is on
    neither stream, and the standard output holds JSON only. *)
Theorem helper_replays_stderr a0 text voice lang_code output_path rest e :
  let o := Helper.script true (a0 :: text :: voice :: lang_code :: output_path :: rest) e in
  exists tail,
    fd2 (final o) = (texts Stderr (helper_writes text voice lang_code e) ++ tail)%list /\
    Forall is_json tail /\
    Forall is_json (fd1 (final o)).
Proof.
  intros o. subst o. unfold Helper.script. rewrite helper_main_eq.
  unfold helper_result, helper_writes.
  destruct (KPipeline (VStr lang_code) e) as [[e1 ws1] [ex | h]].
  - exists [Json (failure (str ex))].
    cbn [finish status final]. unfold write_stderr.
    cbn [sys_stderr after_shim write_to fd1 fd2 put visible].
    split; [f_equal; apply (after_shim_fd2_one e1 ws1 []) |].
    split; repeat constructor.
  - destruct (call_pipeline h (VStr text) (VStr voice) 1 "\n+" e1)
      as [[[e2 ws2] segs] stop]. cbn [fst snd].
    destruct stop as [ex |]; [| destruct segs as [| seg segs]].
    + exists [Json (failure (str ex))].
      cbn [finish status final]. unfold write_stderr.
      cbn [sys_stderr after_shim write_to fd1 fd2 put visible].
      split; [f_equal; apply (after_shim_fd2 e2 ws1 ws2 []) |].
      split; repeat constructor.
    + exists [Json (failure "No audio generated")].
      cbn [finish status final]. unfold write_stderr.
      cbn [sys_stderr after_shim write_to fd1 fd2 put visible].
      split; [f_equal; apply (after_shim_fd2 e2 ws1 ws2 []) |].
      split; repeat constructor.
    + destruct (sf_write (VStr output_path) (List.concat (seg :: segs)) 24000 e2)
        as [e3 [ex |]].
      * exists [Json (failure (str ex))].
        cbn [finish status final]. unfold write_stderr.
        cbn [sys_stderr after_shim record set_outside write_to fd1 fd2 put visible].
        split; [f_equal; apply (after_shim_fd2 e2 ws1 ws2 []) |].
        split; repeat constructor.
      * exists [].
        cbn [finish status final]. unfold write_stdout.
        cbn [sys_stdout after_shim record set_outside write_to fd1 fd2 put visible app].
        rewrite app_nil_r.
        split; [apply (after_shim_fd2 e2 ws1 ws2 []) |].
        split; repeat constructor.
Qed.

(** X18: however a run of the helper ends, [sys.stdout] and [sys.stderr] are
    bound to the streams of the process again. *)
Theorem helper_restores_streams installed argv e :
  sys_stdout (final (Helper.script installed argv e)) = Fd Stdout /\
  sys_stderr (final (Helper.script installed argv e)) = Fd Stderr.
Proof.
  destruct installed; [| split; reflexivity].
  destruct argv as [| a0 [| text [| voice [| lang_code [| output_path rest]]]]];
    try (split; reflexivity).
  unfold Helper.script. rewrite helper_main_eq. unfold helper_result.
  destruct (KPipeline (VStr lang_code) e) as [[e1 ws1] [ex | h]]; [split; reflexivity |].
  destruct (call_pipeline h (VStr text) (VStr voice) 1 "\n+" e1)
    as [[[e2 ws2] segs] [ex |]]; [split; reflexivity |].
  destruct segs as [| seg segs]; [split; reflexivity |].
  destruct (sf_write (VStr output_path) (List.concat (seg :: segs)) 24000 e2)
    as [e3 [ex |]]; split; reflexivity.
Qed.

(** X19: with fewer than three arguments after the name of the script, the
    helper prints its usage line on stderr, in plain text, and exits with
    status 1; nothing goes to stdout and neither the model nor the encoder
    is called. *)
Theorem helper_usage_error argv e :
  (List.length argv < 4)%nat ->
  status (Helper.script true argv e) = 1 /\
  fd1 (final (Helper.script true argv e)) = [] /\
  fd2 (final (Helper.script true argv e)) = [Text (Helper.usage ++ nl)] /\
  log (final (Helper.script true argv e)) = [] /\
  outside (final (Helper.script true argv e)) = e.
Proof.
  intros H. unfold Helper.script. rewrite (helper_usage argv e H). repeat split.
Qed.

(** X20: with exactly three arguments after the name of the script the test
    on the number of arguments passes, and reading the fourth raises
    IndexError outside every handler: the interpreter reports the exception
    on stderr, the status is 1, nothing goes to stdout, and neither the
    model nor the encoder is called. *)
Theorem helper_three_arguments_crash a0 text voice lang_code e :
  status (Helper.script true [a0; text; voice; lang_code] e) = 1 /\
  fd1 (final (Helper.script true [a0; text; voice; lang_code] e)) = [] /\
  fd2 (final (Helper.script true [a0; text; voice; lang_code] e)) =
    [Traceback (Exn "IndexError" "list index out of range")] /\
  log (final (Helper.script true [a0; text; voice; lang_code] e)) = [] /\
  outside (final (Helper.script true [a0; text; voice; lang_code] e)) = e.
Proof. rewrite helper_three_arguments. repeat split. Qed.

End HelperShim.

Lemma helper_success_witness :
  let o := @Helper.script Fake.tone true
             ["kokoro_python_helper.py"; "hola"; "ef_dora"; "e"; "out.wav"] tt in
  status o = 0 /\
  fd1 (final o) =
    [Json [("success", VBool true); ("output_path", VStr "out.wav");
           ("duration", VFloat 0.015625%float); ("sample_rate", VInt 24000)]] /\
  fd2 (final o) = [Text ("UserWarning: dropout" ++ nl)] /\
  log (final o) = [@Constructed Fake.tone (VStr "e") (inr "pipeline-e");
                   @Synthesised Fake.tone "pipeline-e" (VStr "hola") (VStr "ef_dora");
                   @Written Fake.tone (VStr "out.wav") (List.concat Fake.tone_chunks)
                     24000 None] /\
  outside (final o) = tt.
Proof.
  apply (@helper_success Fake.tone "kokoro_python_helper.py" "hola" "ef_dora" "e" "out.wav"
           [] tt tt [(Stdout, "loading voices" ++ nl)] "pipeline-e" tt
           [(Stderr, "UserWarning: dropout" ++ nl)] (repeat 7 250%nat) [repeat 9 125%nat] tt);
    reflexivity.
Defined.


Lemma helper_usage_error_witness :
  let o := @Helper.script Fake.quiet true ["kokoro_python_helper.py"; "hola"] tt in
  status o = 1 /\
  fd1 (final o) = [] /\
  fd2 (final o) = [Text (Helper.usage ++ nl)] /\
  log (final o) = [] /\
  outside (final o) = tt.
Proof.
  apply (@helper_usage_error Fake.quiet ["kokoro_python_helper.py"; "hola"] tt).
  simpl. lia.
Defined.

Section Dispatch.
Context {X : External}.

(** X21: a generate request whose four fields are all true values (whatever
    their types) goes to the adapter with exactly these four values; the
    dict the adapter returns is printed as it is, one line on
    [sys.stdout], and the loop goes on with the next line. *)
Theorem generate_dispatched line rest d w :
  request line d ->
  dict_get d "action" = VStr "generate" ->
  all [dict_get d "text"; dict_get d "voice"; dict_get d "lang_code";
       dict_get d "output_path"] = true ->
  exists w1 r,
    Server.generate_audio (dict_get d "text") (dict_get d "voice") (dict_get d "lang_code")
      (dict_get d "output_path") w = (w1, inr r) /\
    response r /\
    Server.body line w = (write_stdout (Json r) w1, inr Server.Next) /\
    Server.for_lines (line :: rest) w = Server.for_lines rest (write_stdout (Json r) w1).
Proof.
  intros Hr Ha Hall.
  destruct (generate_audio_returns (dict_get d "text") (dict_get d "voice")
              (dict_get d "lang_code") (dict_get d "output_path") w) as (w1 & r & E).
  exists w1, r. split; [exact E |].
  split; [eapply generate_audio_response; exact E |].
  assert (Hb : Server.body line w = (write_stdout (Json r) w1, inr Server.Next)).
  { rewrite (body_object line d w Hr), Ha. cbn [eq_str String.eqb Ascii.eqb Bool.eqb].
    rewrite Hall. cbn [negb]. unfold bind. rewrite E. reflexivity. }
  split; [exact Hb |].
  cbn [Server.for_lines]. unfold bind. rewrite Hb. reflexivity.
Qed.

(** X22: the helper reads its first four arguments and nothing else of its
    command line: the name of the script and the arguments after the
    fourth change nothing of the run. *)
Theorem helper_ignores_extra_arguments a0 b0 text voice lang_code output_path rest e :
  Helper.script true (a0 :: text :: voice :: lang_code :: output_path :: rest) e =
  Helper.script true [b0; text; voice; lang_code; output_path] e.
Proof. unfold Helper.script. rewrite !helper_main_eq. reflexivity. Qed.

End Dispatch.

Lemma generate_dispatched_witness :
  let d := [("action", VStr "generate"); ("text", VStr "hola"); ("voice", VStr "ef_dora");
            ("lang_code", VStr "e"); ("output_path", VStr "out.wav")] in
  let w := @initial Fake.quiet tt in
  exists w1 r,
    @Server.generate_audio Fake.quiet (VStr "hola") (VStr "ef_dora") (VStr "e")
      (VStr "out.wav") w = (w1, inr r) /\
    response r /\
    @Server.body Fake.quiet (Fake.generate_line "e") w =
      (write_stdout (Json r) w1, inr Server.Next) /\
    @Server.for_lines Fake.quiet (Fake.generate_line "e" :: [Fake.ping_line]) w =
      Server.for_lines [Fake.ping_line] (write_stdout (Json r) w1).
Proof.
  intros d w.
  apply (@generate_dispatched Fake.quiet (Fake.generate_line "e") [Fake.ping_line] d w).
  - split; [vm_compute; discriminate | vm_compute; reflexivity].
  - reflexivity.
  - reflexivity.
Defined.

(** ** The standard output of the server *)

Section ServerStdout.
Context {X : External}.

Lemma emit_sys_stdout ws w : sys_stdout (emit ws w) = sys_stdout w.
Proof. destruct (emit_fields ws w) as (_ & H & _). exact H. Qed.

Lemma write_sys_stdout t w : sys_stdout (write t w) = sys_stdout w.
Proof. pose proof (write_rest t w) as E. unfold rest_of in E. inversion E. reflexivity. Qed.

Lemma extends_fd1_In w w' i : extends w w' -> In i (fd1 w) -> In i (fd1 w').
Proof.
  intros (l1 & _ & _ & E & _) H. rewrite E. apply in_or_app. left. exact H.
Qed.

(** A write of the framework to [sys.stdout], while the name is bound to the
    stream of the process, is on the standard output. *)
Lemma emit_on_stdout ws s w :
  sys_stdout w = Fd Stdout -> In (Stdout, s) ws -> s <> "" ->
  In (Text s) (fd1 (emit ws w)).
Proof.
  intros Ho Hin Hs. unfold emit. revert w Ho.
  induction ws as [| t ws IH]; intros w Ho; [destruct Hin |].
  cbn [fold_left]. destruct Hin as [-> | Hin].
  - apply (extends_fd1_In (write (Stdout, s) w)); [apply extends_emit |].
    unfold write, write_stdout. cbn [fst snd]. rewrite Ho. cbn [write_to fd1].
    unfold put. cbn [visible]. apply String.eqb_neq in Hs. rewrite Hs. cbn [negb].
    apply in_or_app. right. left. reflexivity.
  - apply IH; [exact Hin |]. rewrite write_sys_stdout. exact Ho.
Qed.

(** The server keeps [sys.stdout] bound to the stream of the process, and
    what is on the standard output stays there. *)
Lemma inv_stdout_bound w0 A (m : M A) :
  (forall w, sys_stdout (fst (m w)) = sys_stdout w /\ extends w (fst (m w))) ->
  inv (fun w => sys_stdout w = Fd Stdout /\ extends w0 w) m.
Proof.
  intros H w (Ho & He). destruct (H w) as (H1 & H2).
  split; [rewrite H1; exact Ho | eapply extends_trans; eassumption].
Qed.

Lemma new_pipeline_stdout k w :
  sys_stdout (fst (new_pipeline k w)) = sys_stdout w /\ extends w (fst (new_pipeline k w)).
Proof.
  rewrite new_pipeline_world. split; [| apply extends_call].
  cbn [sys_stdout record]. rewrite emit_sys_stdout. reflexivity.
Qed.

Lemma run_pipeline_stdout h t v sp pat w :
  sys_stdout (fst (run_pipeline h t v sp pat w)) = sys_stdout w /\
  extends w (fst (run_pipeline h t v sp pat w)).
Proof.
  rewrite run_pipeline_world. split; [| apply extends_call].
  cbn [sys_stdout record]. rewrite emit_sys_stdout. reflexivity.
Qed.

Lemma write_wav_stdout f d r w :
  sys_stdout (fst (write_wav f d r w)) = sys_stdout w /\ extends w (fst (write_wav f d r w)).
Proof.
  rewrite write_wav_world. split; [reflexivity |].
  eapply extends_trans; [| apply extends_record]. apply extends_same; reflexivity.
Qed.

Lemma generate_audio_stdout text voice lang_code output_path w :
  sys_stdout w = Fd Stdout ->
  sys_stdout (fst (Server.generate_audio text voice lang_code output_path w)) = Fd Stdout /\
  extends w (fst (Server.generate_audio text voice lang_code output_path w)).
Proof.
  intros Ho.
  apply (inv_generate_audio (fun w' => sys_stdout w' = Fd Stdout /\ extends w w')).
  - intros k. unfold Server.get_pipeline.
    destruct (negb (hashable k)); [auto with inv |].
    apply inv_bind; [auto with inv | intros p].
    destruct (Server.lookup k p); [auto with inv |].
    apply inv_bind; [apply inv_stdout_bound, new_pipeline_stdout | intros h].
    apply inv_bind; [| auto with inv].
    apply inv_stdout_bound. intros w1. split; [reflexivity |].
    apply extends_same; reflexivity.
  - intros. apply inv_stdout_bound. intros w1. apply run_pipeline_stdout.
  - intros. apply inv_stdout_bound. intros w1. apply write_wav_stdout.
  - split; [exact Ho | apply extends_refl].
Qed.

(** What the adapter does after it has the pipeline only adds to the
    streams. *)
Lemma generate_audio_after_get text voice k output_path w :
  extends (fst (Server.get_pipeline k w))
          (fst (Server.generate_audio text voice k output_path w)).
Proof.
  unfold Server.generate_audio, try_except, bind.
  destruct (Server.get_pipeline k w) as [w1 [[ex | c] | h]]; cbn [fst ret];
    try apply extends_refl.
  destruct (run_pipeline_stdout h text voice 1 "\n+" w1) as (_ & H1).
  destruct (run_pipeline h text voice 1 "\n+" w1) as [w2 [[ex | c] | segs]];
    cbn [fst ret] in *; try exact H1.
  destruct segs as [| seg segs]; [exact H1 |].
  destruct (write_wav_stdout output_path (List.concat (seg :: segs)) 24000 w2) as (_ & H2).
  destruct (write_wav output_path (List.concat (seg :: segs)) 24000 w2)
    as [w3 [[ex | c] | u]]; cbn [fst ret] in *; eapply extends_trans; eassumption.
Qed.

(** Nothing stands between the framework and the standard output of the
    server: what the constructor writes to [sys.stdout], for a code that is
    not in the cache, is on the standard output when the request is over. *)
Lemma constructor_text_on_stdout text voice k output_path w s :
  sys_stdout w = Fd Stdout ->
  hashable k = true ->
  Server.lookup k (pipelines w) = None ->
  In (Stdout, s) (snd (fst (KPipeline k (outside w)))) ->
  s <> "" ->
  In (Text s) (fd1 (fst (Server.generate_audio text voice k output_path w))).
Proof.
  intros Ho Hk Hl Hin Hs.
  apply (extends_fd1_In (fst (Server.get_pipeline k w)));
    [apply generate_audio_after_get |].
  destruct (KPipeline k (outside w)) as [[e ws] [ex | h]] eqn:EK; cbn [fst snd] in Hin.
  - rewrite (get_pipeline_raises k w e ws ex Hk Hl EK). cbn [fst fd1 record].
    apply emit_on_stdout; assumption.
  - unfold Server.get_pipeline. rewrite Hk. cbn [negb].
    unfold bind, gets, new_pipeline, Server.store, modify. rewrite Hl, EK.
    cbn [fst fd1 record set_pipelines]. apply emit_on_stdout; assumption.
Qed.

End ServerStdout.

(** C4: the server calls the model with [sys.stdout] bound to its standard
    output. With a framework that reports on stdout while it builds the
    pipeline, the report is on the primary channel of the server, before the
    response, and it is not JSON. The helper, on the same framework and the
    same request, keeps the report in its buffer, and its primary channel
    holds the result alone. *)
Theorem framework_text_reaches_stdout :
  fd1 (final (@Server.script Fake.tone true [Fake.generate_line "e"] tt)) =
    [Text ("loading voices" ++ nl); Json (generated (VStr "out.wav") 0.015625%float)] /\
  ~ Forall is_json (fd1 (final (@Server.script Fake.tone true [Fake.generate_line "e"] tt))) /\
  fd1 (final (@Helper.script Fake.tone true
                ["kokoro_python_helper.py"; "hola"; "ef_dora"; "e"; "out.wav"] tt)) =
    [Json (generated (VStr "out.wav") 0.015625%float)].
Proof.
  split; [vm_compute; reflexivity |]. split; [| vm_compute; reflexivity].
  intros H. rewrite Forall_forall in H.
  apply (H (Text ("loading voices" ++ nl))).
  vm_compute. left. reflexivity.
Qed.

(** ** Blank lines, and only they *)

Section Blank.
Context {X : External}.

Lemma grown_is_other (l l' : list item) i : (l ++ l' ++ [i])%list <> l.
Proof.
  intros E. apply (f_equal (@List.length item)) in E.
  rewrite !length_app in E. cbn [List.length] in E. lia.
Qed.

Lemma print_is_seen d w w' :
  sys_stdout w' = Fd Stdout -> extends w w' ->
  fd1 (write_stdout (Json d) w') <> fd1 w.
Proof.
  intros Ho (l1 & _ & _ & E & _). unfold write_stdout. rewrite Ho.
  cbn [write_to fd1 put visible]. rewrite E, <- app_assoc. apply grown_is_other.
Qed.

(** A line that is not blank is never passed over: when the body ends and the
    loop goes on, a response has been written. *)
Lemma body_next_writes line w w' :
  sys_stdout w = Fd Stdout -> strip line <> "" ->
  Server.body line w = (w', inr Server.Next) -> fd1 w' <> fd1 w.
Proof.
  intros Ho Hne Hb.
  destruct (json_loads (strip line)) as [v |] eqn:Hj.
  2:{ rewrite (body_invalid line w Hne Hj) in Hb. inversion Hb; subst.
      apply print_is_seen; [exact Ho | apply extends_refl]. }
  destruct v as [| b | z | f | s | l | d];
    try (rewrite (body_not_object line _ w Hne Hj) in Hb; [discriminate |];
         intros d0; discriminate).
  rewrite (body_object line d w (conj Hne Hj)) in Hb.
  destruct (eq_str (dict_get d "action") "generate").
  - destruct (negb _).
    + inversion Hb; subst. apply print_is_seen; [exact Ho | apply extends_refl].
    + unfold bind in Hb.
      destruct (generate_audio_stdout (dict_get d "text") (dict_get d "voice")
                  (dict_get d "lang_code") (dict_get d "output_path") w Ho) as (H1 & H2).
      destruct (Server.generate_audio (dict_get d "text") (dict_get d "voice")
                  (dict_get d "lang_code") (dict_get d "output_path") w)
        as [w1 [r | r]]; [discriminate |].
      cbn [fst] in *. inversion Hb; subst. apply print_is_seen; assumption.
  - destruct (eq_str (dict_get d "action") "ping").
    + inversion Hb; subst. apply print_is_seen; [exact Ho | apply extends_refl].
    + destruct (eq_str (dict_get d "action") "exit"); [discriminate |].
      inversion Hb; subst. apply print_is_seen; [exact Ho | apply extends_refl].
Qed.

(** X1: the server skips a line exactly when the line holds whitespace only
    (the empty line too). On such a line the body ends with the state as it
    was and the loop goes to the next line; and, with [sys.stdout] bound to
    the standard output as the server has it, a body that ends with the loop
    going on and nothing more on the standard output has read such a line:
    on any other line a response is written, or the loop ends. *)
Theorem blank_line_skipped line rest w :
  (all_space line = true ->
   Server.body line w = (w, inr Server.Next) /\
   Server.for_lines (line :: rest) w = Server.for_lines rest w) /\
  (sys_stdout w = Fd Stdout ->
   forall w', Server.body line w = (w', inr Server.Next) -> fd1 w' = fd1 w ->
              all_space line = true) /\
  (sys_stdout w = Fd Stdout ->
   (all_space line = true <-> Server.body line w = (w, inr Server.Next))) /\
  (strip line = "" <-> all_space line = true).
Proof.
  assert (Hfwd : all_space line = true -> Server.body line w = (w, inr Server.Next)).
  { intros E. apply body_blank, strip_empty, E. }
  assert (Hback : sys_stdout w = Fd Stdout ->
                  forall w', Server.body line w = (w', inr Server.Next) -> fd1 w' = fd1 w ->
                             all_space line = true).
  { intros Ho w' Hb Hsame.
    destruct (all_space line) eqn:E; [reflexivity | exfalso].
    assert (Hne : strip line <> "").
    { intros Hs. apply strip_empty in Hs. congruence. }
    exact (body_next_writes line w w' Ho Hne Hb Hsame). }
  split; [| split; [exact Hback | split; [| apply strip_empty]]].
  - intros E. split; [apply Hfwd, E |].
    cbn [Server.for_lines]. unfold bind. rewrite (Hfwd E). reflexivity.
  - intros Ho. split; [exact Hfwd |].
    intros Hb. apply (Hback Ho w Hb). reflexivity.
Qed.

End Blank.

Lemma blank_line_skipped_witness :
  let line := String (ascii_of_nat 9) (" " ++ nl) in
  let w := @initial Fake.quiet tt in
  (@Server.body Fake.quiet line w = (w, inr Server.Next) /\
   @Server.for_lines Fake.quiet (line :: [Fake.ping_line]) w =
     Server.for_lines [Fake.ping_line] w) /\
  all_space line = true /\
  (all_space line = true <-> @Server.body Fake.quiet line w = (w, inr Server.Next)).
Proof.
  intros line w.
  destruct (@blank_line_skipped Fake.quiet line [Fake.ping_line] w) as (H1 & H2 & H3 & _).
  split; [apply H1; reflexivity |].
  split; [apply (H2 eq_refl w); reflexivity | apply H3; reflexivity].
Defined.
